(** * Sentinel RAG: the streamed-answer pipeline of the chat UI

    A shallow embedding of the TypeScript sources of the UI:

    - [ui/app/page.tsx] (the chat page): the transcript state, the
      delta-append operation [appendToAssistant] and the send operation
      [onSend] with its incremental server-sent-event frame parser;
    - [ui/app/api/ask-stream/route.ts]: the streaming relay endpoint;
    - [ui/app/api/ask/route.ts] (two revisions): the non-streaming endpoint.

    JavaScript strings are sequences of UTF-16 code units, byte chunks are
    lists of [byte], the platform objects the code talks to ([TextDecoder],
    the stream reader, [fetch], [Response]) are modelled by small explicit
    state records following the WHATWG Encoding, Streams and Fetch
    standards. *)

From Stdlib Require Import ZArith NArith List Lia Bool.
From Stdlib Require Import Strings.String Strings.Ascii Strings.Byte.
From Stdlib Require Import Numbers.DecimalString.
From Equations Require Import Equations.
From stdpp Require Import base decidable option numbers list.
Import ListNotations.

Local Open Scope Z_scope.

(** ** JavaScript strings *)

Module JS.

(** A string value: its UTF-16 code units, in order. *)
Abbreviation JSString := (list N).

(** An ASCII literal of the source, as code units. *)
Definition js (s : string) : JSString :=
  List.map N_of_ascii (list_ascii_of_string s).

(** The literals ["\n"] and ["\r"] of the source. *)
Definition lf : N := 10.
Definition cr : N := 13.
Definition LF : JSString := [lf].
Definition CR : JSString := [cr].

(** [s.startsWith(p)] *)
Fixpoint startsWith (s p : JSString) {struct p} : bool :=
  match p, s with
  | [], _ => true
  | _ :: _, [] => false
  | c :: p', d :: s' => (d =? c)%N && startsWith s' p'
  end.

(** [s.endsWith(p)] *)
Definition endsWith (s p : JSString) : bool :=
  startsWith (rev s) (rev p).

(** [s.indexOf(needle)]: the first position at which [needle] occurs,
    [-1] when there is none. *)
Fixpoint indexOf_from (s needle : JSString) (i : Z) : Z :=
  if startsWith s needle then i
  else match s with
       | [] => -1
       | _ :: s' => indexOf_from s' needle (i + 1)
       end.

Definition indexOf (s needle : JSString) : Z := indexOf_from s needle 0.

(** [s.slice(start, end)], [end_ = None] for the one-argument call.
    Negative indices count from the end; both are clamped to the string. *)
Definition slice (s : JSString) (start : Z) (end_ : option Z) : JSString :=
  let len := Z.of_nat (length s) in
  let from := if start <? 0 then Z.max (len + start) 0 else Z.min start len in
  let to := match end_ with
            | None => len
            | Some e => if e <? 0 then Z.max (len + e) 0 else Z.min e len
            end in
  take (Z.to_nat (to - from)) (drop (Z.to_nat from) s).

(** White space and line terminators of ECMAScript, removed by [trim]. *)
Definition isWhiteSpace (c : N) : bool :=
  ((9 <=? c) && (c <=? 13) || (c =? 32) || (c =? 160) || (c =? 5760)
   || (8192 <=? c) && (c <=? 8202) || (c =? 8232) || (c =? 8233)
   || (c =? 8239) || (c =? 8287) || (c =? 12288) || (c =? 65279))%N.

Fixpoint trimStart (s : JSString) : JSString :=
  match s with
  | [] => []
  | c :: s' => if isWhiteSpace c then trimStart s' else s
  end.

Definition trimEnd (s : JSString) : JSString := rev (trimStart (rev s)).

(** [s.trim()] *)
Definition trim (s : JSString) : JSString := trimEnd (trimStart s).

(** [String(n)] for a non-negative integer. *)
Definition ofNumber (n : N) : JSString :=
  js (NilZero.string_of_uint (N.to_uint n)).

(** A thrown value; [message e] is what [e?.message] reads
    ([None] when the value carries no message). *)
Record Exn := mkExn { message : option JSString }.

(** [new Error(msg)] *)
Definition Error (msg : JSString) : Exn := mkExn (Some msg).

(** What [await promise] (or a call that may throw) comes to. *)
Inductive Awaited (A : Type) :=
| Resolves (a : A)
| Rejects (e : Exn).
Arguments Resolves {A} a.
Arguments Rejects {A} e.

(** A JSON value, as [JSON.parse] returns and [JSON.stringify] prints. *)
#[warnings="-register-all"]
Inductive JSON :=
| JNull
| JBool (b : bool)
| JNumber (n : Z)
| JString (s : JSString)
| JArray (items : list JSON)
| JObject (fields : list (JSString * JSON)).

(** How a block of statements completes. *)
Inductive Completion :=
| Normal
| Throw (e : Exn).

End JS.
Import JS.

(** ** The transcript state of the page *)

Inductive Role := user | assistant.

(** [type Msg = { role: "user" | "assistant"; text: string }] *)
Record Msg := mkMsg { role : Role; text : JSString }.

(** The state held by the [Page] component: the three [useState] cells and
    the ref holding the in-flight pointer. *)
Record Page := mkPage {
  input : JSString;
  loading : bool;
  messages : list Msg;
  assistantIndexRef : option Z
}.

Definition setInput (v : JSString) (p : Page) : Page :=
  mkPage v (loading p) (messages p) (assistantIndexRef p).

Definition setLoading (v : bool) (p : Page) : Page :=
  mkPage (input p) v (messages p) (assistantIndexRef p).

Definition setAssistantIndexRef (v : option Z) (p : Page) : Page :=
  mkPage (input p) (loading p) (messages p) v.

(** [setMessages(updater)] with a functional updater. *)
Definition setMessages (updater : list Msg -> list Msg) (p : Page) : Page :=
  mkPage (input p) (loading p) (updater (messages p)) (assistantIndexRef p).

(** [canSend]: the memoised flag that enables the send control. *)
Definition canSend (p : Page) : bool :=
  (0 <? Z.of_nat (length (trim (input p)))) && negb (loading p).

(** [appendToAssistant(delta)]: the updater reads the ref when it runs. *)
Definition appendToAssistant (delta : JSString) (p : Page) : Page :=
  setMessages (fun prev =>
    match assistantIndexRef p with
    | None => prev
    | Some idx =>
        if (idx <? 0) || (idx >=? Z.of_nat (length prev)) then prev
        else
          let updated := prev in
          alter (fun m => mkMsg (role m) (text m ++ delta)) (Z.to_nat idx) updated
    end) p.

(** ** The platform objects used by the frame parser *)

(** *** [TextDecoder("utf-8")], streaming

    The UTF-8 decoder of the WHATWG Encoding standard, in replacement error
    mode, with the byte-order-mark handling of [TextDecoder] ([ignoreBOM]
    false).  [decode(value, { stream: true })] never flushes: the decoder
    keeps an unfinished sequence for the next call. *)

Record TextDecoder := mkDecoder {
  codePoint : N;
  bytesSeen : N;
  bytesNeeded : N;
  lowerBoundary : N;
  upperBoundary : N;
  bomSeen : bool
}.

Definition newTextDecoder : TextDecoder := mkDecoder 0 0 0 128 191 false.

Inductive HandlerResult :=
| Continue
| CodePoint (cp : N)
| DecodeError
| DecodeErrorRestore.   (* error, and the byte is put back on the queue *)

Definition in_range (lo hi b : N) : bool := ((lo <=? b) && (b <=? hi))%N.

(** The handler of the UTF-8 decoder for one byte. *)
Definition utf8_handler (d : TextDecoder) (b : N) : TextDecoder * HandlerResult :=
  if (bytesNeeded d =? 0)%N then
    if in_range 0 127 b then (d, CodePoint b)
    else if in_range 194 223 b then
      (mkDecoder (N.land b 31) (bytesSeen d) 1
                 (lowerBoundary d) (upperBoundary d) (bomSeen d), Continue)
    else if in_range 224 239 b then
      let lo := if (b =? 224)%N then 160%N else lowerBoundary d in
      let hi := if (b =? 237)%N then 159%N else upperBoundary d in
      (mkDecoder (N.land b 15) (bytesSeen d) 2 lo hi (bomSeen d), Continue)
    else if in_range 240 244 b then
      let lo := if (b =? 240)%N then 144%N else lowerBoundary d in
      let hi := if (b =? 244)%N then 143%N else upperBoundary d in
      (mkDecoder (N.land b 7) (bytesSeen d) 3 lo hi (bomSeen d), Continue)
    else (d, DecodeError)
  else if negb (in_range (lowerBoundary d) (upperBoundary d) b) then
    (mkDecoder 0 0 0 128 191 (bomSeen d), DecodeErrorRestore)
  else
    let cp := N.lor (N.shiftl (codePoint d) 6) (N.land b 63) in
    let seen := (bytesSeen d + 1)%N in
    if negb (seen =? bytesNeeded d)%N then
      (mkDecoder cp seen (bytesNeeded d) 128 191 (bomSeen d), Continue)
    else
      (mkDecoder 0 0 0 128 191 (bomSeen d), CodePoint cp).

(** The code points one byte makes the decoder emit; a decoding error
    emits U+FFFD, and a restored byte is handled again at once. *)
Definition emitted (r : HandlerResult) : list N :=
  match r with
  | Continue => []
  | CodePoint cp => [cp]
  | DecodeError | DecodeErrorRestore => [65533%N]
  end.

Definition process_byte (d : TextDecoder) (b : N) : TextDecoder * list N :=
  let '(d1, r) := utf8_handler d b in
  match r with
  | DecodeErrorRestore =>
      let '(d2, r2) := utf8_handler d1 b in (d2, emitted r ++ emitted r2)
  | _ => (d1, emitted r)
  end.

(** A code point as UTF-16 code units. *)
Definition utf16 (cp : N) : JSString :=
  if (cp <? 65536)%N then [cp]
  else
    let v := (cp - 65536)%N in
    [(55296 + N.shiftr v 10)%N; (56320 + N.land v 1023)%N].

(** Serialising the emitted code points: the first code point of the stream
    is dropped when it is the byte order mark U+FEFF. *)
Definition serialize_item (d : TextDecoder) (cp : N) : TextDecoder * JSString :=
  if bomSeen d then (d, utf16 cp)
  else
    let d' := mkDecoder (codePoint d) (bytesSeen d) (bytesNeeded d)
                        (lowerBoundary d) (upperBoundary d) true in
    if (cp =? 65279)%N then (d', []) else (d', utf16 cp).

Fixpoint serialize (d : TextDecoder) (cps : list N) : TextDecoder * JSString :=
  match cps with
  | [] => (d, [])
  | cp :: rest =>
      let '(d1, s1) := serialize_item d cp in
      let '(d2, s2) := serialize d1 rest in
      (d2, s1 ++ s2)
  end.

(** [decoder.decode(value, { stream: true })] *)
Fixpoint decode (d : TextDecoder) (value : list byte) : TextDecoder * JSString :=
  match value with
  | [] => (d, [])
  | b :: rest =>
      let '(d1, cps) := process_byte d (Byte.to_N b) in
      let '(d2, s1) := serialize d1 cps in
      let '(d3, s2) := decode d2 rest in
      (d3, s1 ++ s2)
  end.

(** *** The reader of the response body

    [pending] are the chunks the network still delivers, in order;
    [failure] is the error with which the stream ends after them, if it
    does not end cleanly; [cancelled] records that [cancel()] was called. *)

Record Reader := mkReader {
  pending : list (list byte);
  failure : option Exn;
  cancelled : bool
}.

Inductive ReadResult :=
| ReadDone                                   (* { done: true } *)
| ReadValue (value : list byte) (r : Reader) (* { value, done: false } *)
| ReadThrows (e : Exn).                      (* the promise rejects *)

(** [await reader.read()]: a cancelled stream is closed, reading it
    reports [done]. *)
Definition reader_read (r : Reader) : ReadResult :=
  if cancelled r then ReadDone
  else match pending r with
       | value :: rest => ReadValue value (mkReader rest (failure r) (cancelled r))
       | [] => match failure r with
               | Some e => ReadThrows e
               | None => ReadDone
               end
       end.

(** [reader.cancel().catch(() => {})] *)
Definition reader_cancel (r : Reader) : Reader :=
  mkReader (pending r) (failure r) true.

(** *** [fetch] and its [Response] *)

(** A response body as the network delivers it: the chunks, in order, and
    the error that ends the stream after them when it does not end
    cleanly. *)
Record Stream := mkStream {
  chunks : list (list byte);
  ends_with : option Exn
}.

(** [body.getReader()] *)
Definition getReader (b : Stream) : Reader :=
  mkReader (chunks b) (ends_with b) false.

(** The [Response] that [fetch] resolves to: its status, what reading the
    whole body as text or as JSON comes to, and the body as a stream. *)
Record Response := mkResponse {
  status : N;
  text_result : Awaited JSString;   (* [await response.text()] *)
  json_result : Awaited JSON;       (* [await response.json()] *)
  body : option Stream              (* [response.body], [None] for [null] *)
}.

(** [response.ok] *)
Definition ok (r : Response) : bool := in_range 200 299 (status r).

(** [await fetch(...)]: it rejects on a network error. *)
Abbreviation FetchOutcome := (Awaited Response).

(** ** The frame parser of [onSend] *)

Lemma startsWith_length s p :
  startsWith s p = true -> (length p <= length s)%nat.
Proof.
  revert s. induction p as [|c p IH]; intros [|d s]; simpl; try lia; try discriminate.
  intros [_ E]%andb_prop. apply IH in E. lia.
Qed.

Lemma indexOf_from_range s needle i k :
  indexOf_from s needle i = k -> k <> -1 -> 0 <= i ->
  i <= k /\ k + Z.of_nat (length needle) <= i + Z.of_nat (length s).
Proof.
  revert i. induction s as [|c s IH]; intros i; cbn [indexOf_from].
  - destruct (startsWith [] needle) eqn:E; [|lia].
    apply startsWith_length in E. simpl in *. lia.
  - destruct (startsWith (c :: s) needle) eqn:E.
    + apply startsWith_length in E. simpl in *. lia.
    + intros H Hk Hi. apply IH in H; [|lia..]. simpl length. lia.
Qed.

Lemma length_slice_tail s k :
  0 < k -> s <> [] -> (length (slice s k None) < length s)%nat.
Proof.
  intros Hk Hs. unfold slice. rewrite length_take, length_drop.
  destruct s; [done|]. simpl length.
  destruct (Z.ltb_spec k 0); lia.
Qed.

(** The variables of the read loop: the SSE parsing buffer, the decoder,
    the reader, and the page state the loop updates. *)
Record Loop := mkLoop {
  buffer : JSString;
  decoder : TextDecoder;
  reader : Reader;
  page : Page
}.

Definition inspect {A} (a : A) : {b | a = b} := exist _ a eq_refl.

(** The inner loop: [while (lineEnd !== -1) { ... }], processing the
    complete lines of the buffer.  The [break] at the sentinel leaves the
    loop with the reader cancelled and the buffer emptied. *)
Equations? processLines (s : Loop) : Loop by wf (length (buffer s)) lt :=
  processLines s with inspect (indexOf (buffer s) LF) := {
    | exist _ lineEnd _ with Z.eq_dec lineEnd (-1) := {
      | left _ := s
      | right _ :=
          let rawLine := slice (buffer s) 0 (Some lineEnd) in
          let buffer' := slice (buffer s) (lineEnd + 1) None in
          let line :=
            if endsWith rawLine CR then slice rawLine 0 (Some (-1))
            else rawLine in
          if startsWith line (js "data:") then
            let data := slice line 5 None in
            let data := if startsWith data (js " ") then slice data 1 None else data in
            if bool_decide (data = js "[END]") then
              mkLoop (js "") (decoder s) (reader_cancel (reader s)) (page s)
            else if bool_decide (data = js "") then
              processLines
                (mkLoop buffer' (decoder s) (reader s)
                        (appendToAssistant LF (page s)))
            else
              processLines
                (mkLoop buffer' (decoder s) (reader s)
                        (appendToAssistant data (page s)))
          else
            processLines (mkLoop buffer' (decoder s) (reader s) (page s)) } }.
Proof.
  all: simpl; apply indexOf_from_range in e; [|lia..]; simpl in e;
    apply length_slice_tail; [lia|]; destruct (buffer s); simpl in *; [lia|done].
Qed.

(** *** Reasoning about the inner loop *)

(** What one raw line (without its line feed) makes the loop body do. *)
Inductive Frame :=
| Ignored                 (* not a [data:] line *)
| Delta (d : JSString)    (* [appendToAssistant(d)] *)
| End.                    (* the sentinel: cancel, clear, break *)

Definition frameOf (rawLine : JSString) : Frame :=
  let line :=
    if endsWith rawLine CR then slice rawLine 0 (Some (-1))
    else rawLine in
  if startsWith line (js "data:") then
    let data := slice line 5 None in
    let data := if startsWith data (js " ") then slice data 1 None else data in
    if bool_decide (data = js "[END]") then End
    else if bool_decide (data = js "") then Delta LF
    else Delta data
  else Ignored.

(** The loop, unfolded once. *)
Lemma processLines_eq s :
  processLines s =
  let lineEnd := indexOf (buffer s) LF in
  if Z.eq_dec lineEnd (-1) then s
  else
    let buffer' := slice (buffer s) (lineEnd + 1) None in
    match frameOf (slice (buffer s) 0 (Some lineEnd)) with
    | End => mkLoop [] (decoder s) (reader_cancel (reader s)) (page s)
    | Delta d =>
        processLines
          (mkLoop buffer' (decoder s) (reader s) (appendToAssistant d (page s)))
    | Ignored => processLines (mkLoop buffer' (decoder s) (reader s) (page s))
    end.
Proof.
  funelim (processLines s); rewrite Heq; [reflexivity|].
  unfold frameOf. cbv zeta.
  repeat match goal with |- context [if ?b then _ else _] => destruct b end;
    reflexivity.
Qed.

Lemma indexOf_found_nonempty s k :
  indexOf s LF = k -> k <> -1 -> 0 <= k /\ s <> [].
Proof.
  intros H Hk. apply indexOf_from_range in H; [|lia..].
  destruct s; simpl in *; [lia|]. split; [lia|done].
Qed.

(** Induction following the iterations of the inner loop. *)
Lemma processLines_ind' (P : Loop -> Loop -> Prop) :
  (forall s, indexOf (buffer s) LF = -1 -> P s s) ->
  (forall s, indexOf (buffer s) LF <> -1 ->
     frameOf (slice (buffer s) 0 (Some (indexOf (buffer s) LF))) = End ->
     P s (mkLoop [] (decoder s) (reader_cancel (reader s)) (page s))) ->
  (forall s d s', indexOf (buffer s) LF <> -1 ->
     frameOf (slice (buffer s) 0 (Some (indexOf (buffer s) LF))) = Delta d ->
     s' = mkLoop (slice (buffer s) (indexOf (buffer s) LF + 1) None)
                 (decoder s) (reader s) (appendToAssistant d (page s)) ->
     P s' (processLines s') -> P s (processLines s')) ->
  (forall s s', indexOf (buffer s) LF <> -1 ->
     frameOf (slice (buffer s) 0 (Some (indexOf (buffer s) LF))) = Ignored ->
     s' = mkLoop (slice (buffer s) (indexOf (buffer s) LF + 1) None)
                 (decoder s) (reader s) (page s) ->
     P s' (processLines s') -> P s (processLines s')) ->
  forall s, P s (processLines s).
Proof.
  intros Hstop Hend Hdelta Hign s.
  remember (length (buffer s)) as n eqn:Hn.
  revert s Hn. induction (lt_wf n) as [n _ IH]. intros s ->.
  rewrite processLines_eq. cbv zeta.
  destruct (Z.eq_dec _ _) as [E|E]; [by apply Hstop|].
  assert (length (slice (buffer s) (indexOf (buffer s) LF + 1) None)
          < length (buffer s))%nat as Hlt.
  { destruct (indexOf_found_nonempty _ _ eq_refl E).
    apply length_slice_tail; [lia|done]. }
  destruct (frameOf _) eqn:F.
  - eapply Hign; [done|done|reflexivity|]. eapply IH; [exact Hlt|done].
  - eapply Hdelta; [done|done|reflexivity|]. eapply IH; [exact Hlt|done].
  - by apply Hend.
Qed.

Lemma processLines_pending s :
  pending (reader (processLines s)) = pending (reader s).
Proof.
  apply (processLines_ind' (fun s r => pending (reader r) = pending (reader s)));
    clear s; intros; subst; simpl in *; congruence.
Qed.

(** The outer loop: [while (true) { read; if (done) break; decode; lines }].
    Every iteration takes one chunk off the stream. *)
Equations? readLoop (s : Loop) : Loop * Completion
  by wf (length (pending (reader s))) lt :=
  readLoop s with inspect (reader_read (reader s)) := {
    | exist _ ReadDone _ := (s, Normal)
    | exist _ (ReadThrows e) _ := (s, Throw e)
    | exist _ (ReadValue value r) _ :=
        let '(decoder', decoded) := decode (decoder s) value in
        readLoop (processLines (mkLoop (buffer s ++ decoded) decoder' r (page s))) }.
Proof.
  rewrite processLines_pending. simpl.
  unfold reader_read in *. destruct (cancelled (reader s)); [done|].
  destruct (pending (reader s)); [destruct (failure (reader s)); done|].
  injection e as <- <-. simpl. lia.
Qed.

(** ** The send operation *)

(** The [try] block of [onSend]: the request, the two transport checks and
    the read loop. *)
Definition tryBlock (net : FetchOutcome) (p : Page) : Page * Completion :=
  match net with
  | Rejects e => (p, Throw e)
  | Resolves response =>
      if negb (ok response) then
        let txt := match text_result response with
                   | Resolves t => t
                   | Rejects _ => js ""
                   end in
        (p, Throw (Error (trim (js "HTTP " ++ ofNumber (status response)
                                  ++ js ". " ++ txt))))
      else
        match body response with
        | None => (p, Throw (Error (js "No response body (stream missing).")))
        | Some stream =>
            let reader := getReader stream in
            let decoder := newTextDecoder in
            let buffer := js "" in
            let '(s, c) := readLoop (mkLoop buffer decoder reader p) in
            (page s, c)
        end
  end.

(** [try { body } catch (e) { handler } finally { finalizer }] *)
Definition try_catch_finally
    (body : Page -> Page * Completion)
    (handler : Exn -> Page -> Page * Completion)
    (finalizer : Page -> Page * Completion) (p : Page) : Page * Completion :=
  let '(p1, c1) := body p in
  let '(p2, c2) := match c1 with
                   | Normal => (p1, Normal)
                   | Throw e => handler e p1
                   end in
  let '(p3, c3) := finalizer p2 in
  match c3 with
  | Normal => (p3, c2)
  | Throw e => (p3, Throw e)
  end.

(** [onSend()], for the given behaviour of the network. *)
Definition onSend (net : FetchOutcome) (p : Page) : Page * Completion :=
  let q := trim (input p) in
  if bool_decide (q = js "") || loading p then (p, Normal)
  else
    let p := setInput (js "") p in
    let p := setLoading true p in
    let p := setMessages (fun prev => prev ++ [mkMsg user q]) p in
    let p :=
      let idx := Z.of_nat (length (messages p)) in
      setMessages (fun prev => prev ++ [mkMsg assistant (js "")])
                  (setAssistantIndexRef (Some idx) p) in
    try_catch_finally
      (tryBlock net)
      (fun e p =>
         let msg := trim (js "Streaming failed. " ++ default (js "") (message e)) in
         (appendToAssistant (LF ++ LF ++ msg) p, Normal))
      (fun p => (setLoading false p, Normal))
      p.

(** A key press in the question box: the key name and the shift state. *)
Record KeyboardEvent := mkKeyboardEvent {
  key : JSString;
  shiftKey : bool
}.

(** [onKeyDown(e)]: the page once the send it may start is over, how that
    send completes, and whether [e.preventDefault()] was called. *)
Definition onKeyDown (e : KeyboardEvent) (net : FetchOutcome) (p : Page)
  : Page * Completion * bool :=
  if bool_decide (key e = js "Enter") && negb (shiftKey e) then
    (onSend net p, true)
  else ((p, Normal), false).

(** *** Sends made from one render

    [input] and [loading] are constants of a render: every [onSend] closure
    of that render reads the same two values, whatever state updates were
    requested since.  The updates themselves, and the ref, act on the
    current state. *)

(** What the closures of a render read. *)
Record Render := mkRender {
  seen_input : JSString;
  seen_loading : bool
}.

(** The render of the state [p]. *)
Definition render_of (p : Page) : Render := mkRender (input p) (loading p).

(** [onSend()] up to its first [await], called from the render [r] on the
    state [p]: the guard, then the four state updates; [None] when the guard
    returns. *)
Definition onSend_begin (r : Render) (p : Page) : option Page :=
  let q := trim (seen_input r) in
  if bool_decide (q = js "") || seen_loading r then None
  else
    let p := setInput (js "") p in
    let p := setLoading true p in
    let p := setMessages (fun prev => prev ++ [mkMsg user q]) p in
    let p :=
      let idx := Z.of_nat (length (messages p)) in
      setMessages (fun prev => prev ++ [mkMsg assistant (js "")])
                  (setAssistantIndexRef (Some idx) p) in
    Some p.

(** [onSend()] from its first [await] on: the [try] block with its handler
    and its [finally]. *)
Definition onSend_rest (net : FetchOutcome) (p : Page) : Page * Completion :=
  try_catch_finally
    (tryBlock net)
    (fun e p =>
       let msg := trim (js "Streaming failed. " ++ default (js "") (message e)) in
       (appendToAssistant (LF ++ LF ++ msg) p, Normal))
    (fun p => (setLoading false p, Normal))
    p.

(** ** The relay endpoints *)

(** [process.env] *)
Record ProcessEnv := mkEnv {
  NEXT_PUBLIC_API_BASE_URL : option JSString;
  RAG_API_BASE : option JSString
}.

(** An outbound [fetch(url, { method, headers, body: JSON.stringify(payload) })]. *)
Record FetchCall := mkFetchCall {
  url : JSString;
  method : JSString;
  headers : list (JSString * JSString);
  payload : JSON
}.

Inductive ResponseBody :=
| NoBody                          (* [null] *)
| BodyStream (s : Stream)         (* a [ReadableStream], passed on as it is *)
| BodyText (t : JSString)
| BodyJson (v : JSON).            (* [JSON.stringify(v)] *)

(** The response a route handler returns to the client. *)
Record HttpResponse := mkHttpResponse {
  r_status : N;
  r_headers : list (JSString * JSString);
  r_body : ResponseBody
}.

(** Statuses whose response carries no body (Fetch standard). *)
Definition null_body_status (st : N) : bool :=
  ((st =? 101) || (st =? 103) || (st =? 204) || (st =? 205) || (st =? 304))%N.

(** [new Response(body, { status, headers })]; the status defaults to 200.
    The constructor throws a [RangeError] for a status outside 200..599 and
    a [TypeError] for a body given with a null-body status. *)
Definition newResponse (b : ResponseBody) (st : option N)
    (hs : list (JSString * JSString)) : Awaited HttpResponse :=
  let st := default 200%N st in
  if negb (in_range 200 599 st) then
    Rejects (Error (js "init[status] must be in the range of 200 to 599, inclusive."))
  else if null_body_status st
          && negb (match b with NoBody => true | _ => false end) then
    Rejects (Error (js "Response constructor: Invalid response status code"))
  else Resolves (mkHttpResponse st hs b).

(** [NextResponse.json(data, { status })] *)
Definition NextResponse_json (data : JSON) (st : option N) : Awaited HttpResponse :=
  newResponse (BodyJson data) st [(js "content-type", js "application/json")].

(** Handlers run against the backend [backend], which settles every call
    made to it; a handler's run yields its result and the calls it made. *)
Definition Handler (A : Type) : Type :=
  (FetchCall -> Awaited Response) -> list FetchCall -> Awaited A * list FetchCall.

#[local] Instance Handler_ret : MRet Handler :=
  fun A a _ calls => (Resolves a, calls).

(** Sequencing: a rejection skips the rest of the block. *)
#[local] Instance Handler_bind : MBind Handler :=
  fun A B k m backend calls =>
    match m backend calls with
    | (Resolves a, calls') => k a backend calls'
    | (Rejects e, calls') => (Rejects e, calls')
    end.

(** [await e] for an already settled promise or a throwing call. *)
Definition await {A} (r : Awaited A) : Handler A :=
  fun _ calls => (r, calls).

(** [await fetch(...)] *)
Definition fetch (call : FetchCall) : Handler Response :=
  fun backend calls => (backend call, calls ++ [call]).

(** [try { body } catch (err) { handler err }] *)
Definition try_catch {A} (body : Handler A) (handler : Exn -> Handler A) : Handler A :=
  fun backend calls =>
    match body backend calls with
    | (Resolves a, calls') => (Resolves a, calls')
    | (Rejects e, calls') => handler e backend calls'
    end.

Definition run {A} (m : Handler A) (backend : FetchCall -> Awaited Response)
  : Awaited A * list FetchCall := m backend [].

Definition default_base : JSString := js "http://127.0.0.1:8000".

Definition json_headers : list (JSString * JSString) :=
  [(js "Content-Type", js "application/json")].

(** [POST] of [api/ask-stream/route.ts]: the streaming relay.
    [req_json] is what [await req.json()] comes to. *)
Definition POST_ask_stream (env : ProcessEnv) (req_json : Awaited JSON)
  : Handler HttpResponse :=
  reqBody ← await req_json;
  let backendBase := default default_base (NEXT_PUBLIC_API_BASE_URL env) in
  response ← fetch (mkFetchCall (backendBase ++ js "/ask-stream") (js "POST")
                                json_headers reqBody);
  await (newResponse
           (match body response with
            | Some s => BodyStream s
            | None => NoBody
            end)
           None [(js "Content-Type", js "text/event-stream")]).

(** [POST] of [api/ask/route.ts]: the non-streaming endpoint, JSON
    revision.  Everything runs inside [try]; the [catch] answers with a
    500 "Proxy error" object ([detail] is absent when the thrown value has
    no message). *)
Definition POST_ask (env : ProcessEnv) (req_json : Awaited JSON)
  : Handler HttpResponse :=
  try_catch
    (reqBody ← await req_json;
     let backendBase := default default_base (NEXT_PUBLIC_API_BASE_URL env) in
     r ← fetch (mkFetchCall (backendBase ++ js "/ask") (js "POST")
                            json_headers reqBody);
     data ← await (json_result r);
     await (NextResponse_json data (Some (status r))))
    (fun err =>
       await (NextResponse_json
                (JObject ((js "error", JString (js "Proxy error"))
                          :: match message err with
                             | Some m => [(js "detail", JString m)]
                             | None => []
                             end))
                (Some 500%N))).

(** [POST] of the other revision of the non-streaming endpoint: the body
    is forwarded as text, and nothing is caught. *)
Definition POST_ask_text (env : ProcessEnv) (req_json : Awaited JSON)
  : Handler HttpResponse :=
  reqBody ← await req_json;
  let backendBase :=
    default (default default_base (RAG_API_BASE env))
            (NEXT_PUBLIC_API_BASE_URL env) in
  r ← fetch (mkFetchCall (backendBase ++ js "/ask") (js "POST")
                         json_headers reqBody);
  text ← await (text_result r);
  await (newResponse (BodyText text) (Some (status r)) json_headers).

(** ** The wire protocol, in the words of the specification

    These definitions follow the text of the specification, not the code;
    the theorems below compare the frame parser with them. *)

Module Wire.

(** The stream is a sequence of lines terminated by a line feed:
    [split t] is the complete lines of [t], in order and without their
    line feeds, and the unterminated tail after the last line feed. *)
Fixpoint split (t : JSString) : list JSString * JSString :=
  match t with
  | [] => ([], [])
  | c :: t' =>
      let '(ls, tl) := split t' in
      if (c =? 10)%N then ([] :: ls, tl)
      else match ls with
           | [] => ([], c :: tl)
           | l :: ls' => ((c :: l) :: ls', tl)
           end
  end.

Definition lines (t : JSString) : list JSString := fst (split t).
Definition tail (t : JSString) : JSString := snd (split t).

(** A carriage return accompanying the line feed is stripped. *)
Definition strip_cr (l : JSString) : JSString :=
  match rev l with
  | c :: r => if (c =? 13)%N then rev r else l
  | [] => l
  end.

(** Only lines beginning with the five characters [data:] carry a
    payload; one space right after the prefix is a separator and is not
    part of the payload, further spaces are. *)
Definition payload (line : JSString) : option JSString :=
  if bool_decide (take 5 line = js "data:") then
    match drop 5 line with
    | c :: rest => if (c =? 32)%N then Some rest else Some (c :: rest)
    | [] => Some []
    end
  else None.

(** The payloads of all [data:] lines of a text. *)
Definition payloads (t : JSString) : list JSString :=
  omap (fun l => payload (strip_cr l)) (lines t).

Definition sentinel : JSString := js "[END]".

(** The payloads up to and excluding the sentinel frame. *)
Fixpoint before_sentinel (ps : list JSString) : list JSString :=
  match ps with
  | [] => []
  | p :: ps' => if bool_decide (p = sentinel) then [] else p :: before_sentinel ps'
  end.

(** Whether some frame is the sentinel. *)
Definition terminated (t : JSString) : bool :=
  bool_decide (sentinel ∈ payloads t).

(** The delta a payload contributes: an empty payload is a newline. *)
Definition delta (p : JSString) : JSString :=
  if bool_decide (p = []) then LF else p.

Definition deltas (t : JSString) : list JSString :=
  delta <$> before_sentinel (payloads t).

End Wire.

(** The text the decoder produces for a whole byte stream. *)
Definition decoded (stream : list byte) : JSString :=
  snd (decode newTextDecoder stream).

(** ** Vocabulary of the statements *)

(** The deltas [ds] applied in order, one [appendToAssistant] each. *)
Definition applyDeltas (ds : list JSString) (p : Page) : Page :=
  foldl (fun p d => appendToAssistant d p) p ds.

(** The state with which the [try] block enters the read loop. *)
Definition start (stream : Stream) (p : Page) : Loop :=
  mkLoop (js "") newTextDecoder (getReader stream) p.

(** How a stream ends when no sentinel stopped the loop before. *)
Definition stream_end (f : option Exn) : Completion :=
  match f with
  | Some e => Throw e
  | None => Normal
  end.

(** The page of an operation in flight, started from [p]: the question and
    the placeholder appended to the Transcript, the placeholder holding
    [partial], the pointer on the placeholder. *)
Definition streaming (p : Page) (partial : JSString) : Page :=
  mkPage (js "") true
         (messages p ++ [mkMsg user (trim (input p)); mkMsg assistant partial])
         (Some (Z.of_nat (S (length (messages p))))).

(** The page as [onSend] leaves it before the request. *)
Definition sent (p : Page) : Page := streaming p (js "").

(** The page once the operation is over, the placeholder holding [answer]. *)
Definition answered (p : Page) (answer : JSString) : Page :=
  setLoading false (streaming p answer).

(** The failure notice the [catch] block appends. *)
Definition notice (e : Exn) : JSString :=
  LF ++ LF ++ trim (js "Streaming failed. " ++ default (js "") (message e)).

(** The code units of a sequence of ASCII bytes. *)
Definition code_units (bs : list byte) : JSString := Byte.to_N <$> bs.

(** The lines [ls], each followed by the terminator [term]. *)
Definition terminated_by (term : JSString) (ls : list JSString) : JSString :=
  concat ((fun l => l ++ term) <$> ls).

(** [transport_failure net partial]: the network behaviour [net] is a
    transport failure, met after deltas amounting to [partial] were
    applied: the request itself fails, the status is not a success, the
    body is missing, or the stream breaks before any sentinel. *)
Inductive transport_failure : FetchOutcome -> JSString -> Prop :=
| network_error e :
    transport_failure (Rejects e) []
| bad_status r :
    ok r = false ->
    transport_failure (Resolves r) []
| missing_body r :
    ok r = true -> body r = None ->
    transport_failure (Resolves r) []
| broken_stream r cs e :
    ok r = true -> body r = Some (mkStream cs (Some e)) ->
    Wire.terminated (decoded (concat cs)) = false ->
    transport_failure (Resolves r) (concat (Wire.deltas (decoded (concat cs)))).

(** The call either revision of the non-streaming endpoint makes. *)
Definition ask_call (base : JSString) (reqBody : JSON) : FetchCall :=
  mkFetchCall (base ++ js "/ask") (js "POST") json_headers reqBody.

(** ** Sample inputs *)

(** The bytes of an ASCII literal, and the two line terminators. *)
Definition bytes (s : string) : list byte := list_byte_of_string s.
Definition eol : list byte := [x0a].
Definition crlf : list byte := [x0d; x0a].

(** A page ready to send the question [why?]. *)
Definition page_idle : Page :=
  mkPage (js " why? ") false [mkMsg assistant (js "Ask me anything")] None.

(** A successful streamed response delivering [cs], ending with [f]. *)
Definition streamed (cs : list (list byte)) (f : option Exn) : FetchOutcome :=
  Resolves (mkResponse 200 (Rejects (mkExn None)) (Rejects (mkExn None))
                       (Some (mkStream cs f))).

(** A page in the middle of an operation. *)
Definition page_demo : Page :=
  mkPage (js "") true
         [mkMsg assistant (js "Ask me"); mkMsg user (js "why?"); mkMsg assistant (js "Be")]
         (Some 2).

(** The backend answers 500 with an empty body. *)
Definition http_500 : FetchOutcome :=
  Resolves (mkResponse 500 (Resolves (js "")) (Rejects (mkExn None)) None).

Definition no_env : ProcessEnv := mkEnv None None.

(** The request body [{ "question": "why?" }]. *)
Definition question : JSON := JObject [(js "question", JString (js "why?"))].

(** A backend that fails with status 500 and an explanatory stream. *)
Definition backend_500 : FetchCall -> Awaited Response :=
  fun _ => Resolves (mkResponse 500 (Resolves (js "Internal Server Error"))
                                (Rejects (Error (js "Unexpected token I in JSON")))
                                (Some (mkStream [bytes "Internal Server Error"] None))).

(** A backend that cannot be reached. *)
Definition backend_down : FetchCall -> Awaited Response :=
  fun _ => Rejects (Error (js "fetch failed")).

(** A backend that answers 201 with the same object read either way. *)
Definition backend_201 : FetchCall -> Awaited Response :=
  fun _ => Resolves (mkResponse 201 (Resolves (js "{}")) (Resolves (JObject [])) None).

(** * Properties *)

(** ** The delta-append operation *)

Lemma appendToAssistant_unresolved delta p :
  match assistantIndexRef p with
  | None => True
  | Some idx => idx < 0 \/ Z.of_nat (length (messages p)) <= idx
  end ->
  appendToAssistant delta p = p.
Proof.
  unfold appendToAssistant, setMessages. destruct p as [i l ms [idx|]]; simpl; [|done].
  intros H. destruct (Z.ltb_spec idx 0), (Z.geb_spec idx (Z.of_nat (length ms)));
    simpl; try done; lia.
Qed.

Lemma appendToAssistant_resolved delta p idx :
  assistantIndexRef p = Some idx ->
  0 <= idx < Z.of_nat (length (messages p)) ->
  appendToAssistant delta p =
  mkPage (input p) (loading p)
         (alter (fun m => mkMsg (role m) (text m ++ delta)) (Z.to_nat idx) (messages p))
         (Some idx).
Proof.
  unfold appendToAssistant, setMessages. destruct p as [i l ms r]; simpl.
  intros -> H. destruct (Z.ltb_spec idx 0), (Z.geb_spec idx (Z.of_nat (length ms)));
    simpl; try done; lia.
Qed.

(** C8. Appending a delta while the in-flight pointer resolves changes the
    text of the in-flight Message only: the Transcript keeps its length,
    every other position holds the Message it held, the in-flight Message
    keeps its role and gets the delta appended at the end of its text; the
    input, the loading flag and the pointer are unchanged as well. *)
Theorem C8_append_frame delta p idx :
  assistantIndexRef p = Some idx ->
  0 <= idx < Z.of_nat (length (messages p)) ->
  let p' := appendToAssistant delta p in
  length (messages p') = length (messages p)
  /\ (forall j, j <> Z.to_nat idx -> messages p' !! j = messages p !! j)
  /\ (exists m, messages p !! Z.to_nat idx = Some m
             /\ messages p' !! Z.to_nat idx = Some (mkMsg (role m) (text m ++ delta)))
  /\ input p' = input p /\ loading p' = loading p
  /\ assistantIndexRef p' = assistantIndexRef p.
Proof.
  intros Href Hidx p'. subst p'.
  rewrite (appendToAssistant_resolved _ _ _ Href Hidx). simpl.
  split; [apply length_alter|].
  split; [intros j Hj; by apply list_lookup_alter_ne|].
  split; [|by rewrite Href].
  destruct (lookup_lt_is_Some_2 (messages p) (Z.to_nat idx)) as [m Hm]; [lia|].
  exists m. split; [done|]. by rewrite list_lookup_alter_eq, Hm.
Qed.

Lemma C8_append_frame_witness :
  let p' := appendToAssistant (js "cause") page_demo in
  length (messages p') = length (messages page_demo)
  /\ (forall j, j <> Z.to_nat 2 -> messages p' !! j = messages page_demo !! j)
  /\ (exists m, messages page_demo !! Z.to_nat 2 = Some m
             /\ messages p' !! Z.to_nat 2 = Some (mkMsg (role m) (text m ++ js "cause")))
  /\ input p' = input page_demo /\ loading p' = loading page_demo
  /\ assistantIndexRef p' = assistantIndexRef page_demo.
Proof.
  apply (C8_append_frame (js "cause") page_demo 2); [reflexivity | simpl; lia].
Defined.

(** C10. When the in-flight pointer is null, negative, or not less than
    the Transcript length, appending a delta returns the page state as it
    was ([appendToAssistant] is a total function: nothing is thrown). *)
Theorem C10_append_unresolved_noop delta p :
  (assistantIndexRef p = None
   \/ exists idx, assistantIndexRef p = Some idx
                  /\ (idx < 0 \/ Z.of_nat (length (messages p)) <= idx)) ->
  appendToAssistant delta p = p.
Proof.
  intros H. apply appendToAssistant_unresolved.
  destruct H as [-> | (idx & -> & H)]; done.
Qed.

Lemma C10_append_unresolved_noop_witness :
  appendToAssistant (js "lost") (setAssistantIndexRef (Some 3) page_demo)
  = setAssistantIndexRef (Some 3) page_demo.
Proof.
  apply C10_append_unresolved_noop. right. exists 3.
  split; [reflexivity | simpl; lia].
Defined.

(** ** The string operations of the parser *)

Lemma slice_to s k : 0 <= k -> slice s 0 (Some k) = take (Z.to_nat k) s.
Proof.
  intros Hk. unfold slice. cbv zeta.
  rewrite (proj2 (Z.ltb_ge 0 0)), (proj2 (Z.ltb_ge k 0)) by lia.
  rewrite (Z.min_l 0) by lia. change (Z.to_nat 0) with 0%nat. rewrite drop_0. rewrite Z.sub_0_r.
  destruct (Z.le_ge_cases k (Z.of_nat (length s))).
  - by rewrite Z.min_l.
  - rewrite Z.min_r, Nat2Z.id, !take_ge by lia. done.
Qed.

Lemma slice_from s k : 0 <= k -> slice s k None = drop (Z.to_nat k) s.
Proof.
  intros Hk. unfold slice. cbv zeta.
  rewrite (proj2 (Z.ltb_ge k 0)) by lia.
  destruct (Z.le_ge_cases k (Z.of_nat (length s))).
  - rewrite Z.min_l by lia. apply take_ge. rewrite length_drop. lia.
  - rewrite Z.min_r, Nat2Z.id, !drop_ge by lia. by rewrite take_nil.
Qed.

Lemma slice_but_last s : slice s 0 (Some (-1)) = take (length s - 1) s.
Proof.
  unfold slice. cbv zeta.
  rewrite (proj2 (Z.ltb_ge 0 0)), (proj2 (Z.ltb_lt (-1) 0)) by lia.
  rewrite (Z.min_l 0) by lia. change (Z.to_nat 0) with 0%nat. rewrite drop_0. f_equal. lia.
Qed.

Lemma startsWith_take s p :
  startsWith s p = bool_decide (take (length p) s = p).
Proof.
  revert s. induction p as [|c p IH]; intros [|d s]; simpl; try done.
  rewrite IH. destruct (N.eqb_spec d c) as [->|Hne]; simpl.
  - apply bool_decide_ext. split; [by intros ->|congruence].
  - symmetry. apply bool_decide_eq_false. congruence.
Qed.

(** The first line feed of a string, as [indexOf] finds it. *)
Lemma indexOf_from_LF s i :
  ((lf ∉ s) /\ indexOf_from s LF i = -1)
  \/ (exists l r, s = l ++ lf :: r /\ (lf ∉ l)
                  /\ indexOf_from s LF i = i + Z.of_nat (length l)).
Proof.
  revert i. induction s as [|c s IH]; intros i.
  - left. split; [apply not_elem_of_nil|done].
  - change (indexOf_from (c :: s) LF i)
      with (if (c =? lf)%N && true then i else indexOf_from s LF (i + 1)).
    rewrite andb_true_r. destruct (N.eqb_spec c lf) as [->|Hne].
    + right. exists [], s. split; [done|]. split; [apply not_elem_of_nil|]. simpl. lia.
    + destruct (IH (i + 1)) as [[Hs E] | (l & r & -> & Hl & E)].
      * left. split; [|done]. rewrite not_elem_of_cons. done.
      * right. exists (c :: l), r. split; [done|].
        split; [rewrite not_elem_of_cons; done|]. rewrite E. simpl length. lia.
Qed.

Lemma indexOf_LF_none s : lf ∉ s -> indexOf s LF = -1.
Proof.
  intros Hs. destruct (indexOf_from_LF s 0) as [[_ E] | (l & r & -> & _ & _)]; [done|].
  exfalso. apply Hs. rewrite elem_of_app, elem_of_cons. auto.
Qed.

Lemma indexOf_LF_first l r :
  lf ∉ l -> indexOf (l ++ lf :: r) LF = Z.of_nat (length l).
Proof.
  intros Hl. unfold indexOf.
  destruct (indexOf_from_LF (l ++ lf :: r) 0) as [[Hs _] | (l' & r' & E & Hl' & ->)].
  - exfalso. apply Hs. rewrite elem_of_app, elem_of_cons. auto.
  - f_equal. simpl.
    assert (l = l') as ->; [|done].
    clear -E Hl Hl'. revert l' E Hl'. induction l as [|c l IH]; intros [|c' l'] E Hl'.
    + done.
    + injection E as <- _. exfalso. apply Hl'. apply elem_of_cons. auto.
    + injection E as -> _. exfalso. apply Hl. apply elem_of_cons. auto.
    + injection E as -> E. f_equal. rewrite not_elem_of_cons in Hl, Hl'.
      apply IH; tauto.
Qed.

Lemma slice_line l r : slice (l ++ lf :: r) 0 (Some (Z.of_nat (length l))) = l.
Proof.
  rewrite slice_to by lia. rewrite Nat2Z.id. by rewrite take_app_length.
Qed.

Lemma slice_rest l r :
  slice (l ++ lf :: r) (Z.of_nat (length l) + 1) None = r.
Proof.
  rewrite slice_from by lia.
  replace (Z.to_nat (Z.of_nat (length l) + 1)) with (length l + 1)%nat by lia.
  rewrite <- drop_drop, drop_app_length. done.
Qed.

(** ** The loop body against the wire protocol *)

Lemma line_strip_cr rawLine :
  (if endsWith rawLine CR then slice rawLine 0 (Some (-1)) else rawLine)
  = Wire.strip_cr rawLine.
Proof.
  unfold endsWith, Wire.strip_cr. rewrite slice_but_last.
  rewrite <- (rev_involutive rawLine). generalize (rev rawLine). intros rr.
  rewrite rev_involutive. destruct rr as [|c r]; [done|]. simpl.
  rewrite andb_true_r. fold cr. destruct (c =? cr)%N; [|done].
  rewrite length_app. simpl.
  replace (length (rev r) + 1 - 1)%nat with (length (rev r)) by lia.
  by rewrite take_app_length.
Qed.

Lemma data_strip_space line :
  startsWith line (js "data:") = true ->
  Wire.payload line =
  Some (let data := slice line 5 None in
        if startsWith data (js " ") then slice data 1 None else data).
Proof.
  intros H. unfold Wire.payload.
  rewrite startsWith_take in H. change (length (js "data:")) with 5%nat in H.
  rewrite H. cbv zeta. rewrite (slice_from line 5) by lia.
  change (Z.to_nat 5) with 5%nat.
  destruct (drop 5 line) as [|c rest]; [done|].
  change (startsWith (c :: rest) (js " ")) with ((c =? 32)%N && true).
  rewrite andb_true_r. destruct (c =? 32)%N; [|done].
  by rewrite slice_from by lia.
Qed.

(** The loop body does to a raw line what the protocol says of it. *)
Lemma frameOf_wire rawLine :
  frameOf rawLine =
  match Wire.payload (Wire.strip_cr rawLine) with
  | None => Ignored
  | Some pl =>
      if bool_decide (pl = Wire.sentinel) then End else Delta (Wire.delta pl)
  end.
Proof.
  unfold frameOf. cbv zeta. rewrite line_strip_cr.
  set (line := Wire.strip_cr rawLine).
  destruct (startsWith line (js "data:")) eqn:E.
  - rewrite (data_strip_space _ E). cbv zeta. unfold Wire.sentinel, Wire.delta.
    destruct (bool_decide _); [done|]. change (js "") with (@nil N).
    by destruct (bool_decide _).
  - unfold Wire.payload. rewrite startsWith_take in E.
    change (length (js "data:")) with 5%nat in E. by rewrite E.
Qed.

(** ** Lines of a text *)

Lemma split_no_lf t : lf ∉ t -> Wire.split t = ([], t).
Proof.
  induction t as [|c t IH]; [done|].
  rewrite not_elem_of_cons. intros [Hc Ht]. simpl. rewrite (IH Ht).
  by destruct (N.eqb_spec c 10).
Qed.

Lemma split_line l r :
  lf ∉ l -> Wire.split (l ++ lf :: r) = (l :: Wire.lines r, Wire.tail r).
Proof.
  unfold Wire.lines, Wire.tail. induction l as [|c l IH]; simpl.
  - intros _. by destruct (Wire.split r).
  - rewrite not_elem_of_cons. intros [Hc Hl]. rewrite (IH Hl).
    by destruct (N.eqb_spec c 10).
Qed.

Lemma lines_nil_inv t : Wire.lines t = [] -> lf ∉ t.
Proof.
  unfold Wire.lines. induction t as [|c t IH]; [intros _; apply not_elem_of_nil|].
  simpl. destruct (Wire.split t) as [ls tl]. rewrite not_elem_of_cons.
  destruct (N.eqb_spec c 10); [done|]. destruct ls; [|done]. auto.
Qed.

Lemma tail_no_lf t : lf ∉ Wire.tail t.
Proof.
  unfold Wire.tail. induction t as [|c t IH]; [apply not_elem_of_nil|].
  simpl. destruct (Wire.split t) as [ls tl]. simpl in IH.
  destruct (N.eqb_spec c 10); [done|]. destruct ls; simpl; [|done].
  rewrite not_elem_of_cons. done.
Qed.

Lemma lines_cons c t :
  Wire.lines (c :: t) =
  if (c =? 10)%N then [] :: Wire.lines t
  else match Wire.lines t with
       | [] => []
       | l :: ls => (c :: l) :: ls
       end.
Proof.
  unfold Wire.lines. simpl. destruct (Wire.split t) as [[|l ls] tl];
    by destruct (c =? 10)%N.
Qed.

Lemma tail_cons c t :
  Wire.tail (c :: t) =
  if (c =? 10)%N then Wire.tail t
  else match Wire.lines t with
       | [] => c :: Wire.tail t
       | _ :: _ => Wire.tail t
       end.
Proof.
  unfold Wire.lines, Wire.tail. simpl. destruct (Wire.split t) as [[|l ls] tl];
    by destruct (c =? 10)%N.
Qed.

(** Lines are found incrementally: the lines of [t1 ++ t2] are those of
    [t1], then those of what [t1] left unterminated followed by [t2]. *)
Lemma split_app t1 t2 :
  Wire.lines (t1 ++ t2) = Wire.lines t1 ++ Wire.lines (Wire.tail t1 ++ t2)
  /\ Wire.tail (t1 ++ t2) = Wire.tail (Wire.tail t1 ++ t2).
Proof.
  induction t1 as [|c t1 [IHl IHt]]; [done|].
  rewrite <- app_comm_cons, !lines_cons, !tail_cons, IHl, IHt.
  destruct (c =? 10)%N eqn:Ec; [done|].
  destruct (Wire.lines t1) as [|l ls]; [|done].
  rewrite <- app_comm_cons, lines_cons, tail_cons, Ec. done.
Qed.

Lemma lines_app t1 t2 :
  Wire.lines (t1 ++ t2) = Wire.lines t1 ++ Wire.lines (Wire.tail t1 ++ t2).
Proof. apply split_app. Qed.

Lemma tail_app t1 t2 :
  Wire.tail (t1 ++ t2) = Wire.tail (Wire.tail t1 ++ t2).
Proof. apply split_app. Qed.

(** ** The inner loop against the wire protocol *)

Lemma buffer_cases b :
  ((lf ∉ b) /\ indexOf b LF = -1)
  \/ (exists l r, b = l ++ lf :: r /\ (lf ∉ l)
                  /\ indexOf b LF = Z.of_nat (length l)).
Proof.
  destruct (indexOf_from_LF b 0) as [H | (l & r & H1 & H2 & H3)]; [by left|].
  right. exists l, r. by rewrite Z.add_0_l in H3.
Qed.

Lemma payloads_no_lf t : lf ∉ t -> Wire.payloads t = [].
Proof.
  intros H. unfold Wire.payloads, Wire.lines. by rewrite split_no_lf.
Qed.

Lemma payloads_line l r :
  lf ∉ l ->
  Wire.payloads (l ++ lf :: r)
  = match Wire.payload (Wire.strip_cr l) with
    | Some pl => pl :: Wire.payloads r
    | None => Wire.payloads r
    end.
Proof.
  intros H. unfold Wire.payloads, Wire.lines. rewrite split_line by done.
  simpl. by destruct (Wire.payload _).
Qed.

Lemma tail_line l r : lf ∉ l -> Wire.tail (l ++ lf :: r) = Wire.tail r.
Proof. intros H. unfold Wire.tail at 1. by rewrite split_line. Qed.

Lemma terminated_cons pl ps t :
  Wire.payloads t = pl :: ps ->
  Wire.terminated t = bool_decide (pl = Wire.sentinel) || bool_decide (Wire.sentinel ∈ ps).
Proof.
  intros H. unfold Wire.terminated. rewrite H.
  destruct (bool_decide (pl = Wire.sentinel)) eqn:E1; simpl.
  - apply bool_decide_eq_true_1 in E1 as ->. apply bool_decide_eq_true_2.
    apply elem_of_cons. by left.
  - apply bool_decide_eq_false_1 in E1. apply bool_decide_ext.
    rewrite elem_of_cons. split; [|auto]. intros [?|?]; [congruence|done].
Qed.

(** What a first line adds to the frames of the text after it. *)
Lemma wire_line l r :
  lf ∉ l ->
  Wire.tail (l ++ lf :: r) = Wire.tail r
  /\ match Wire.payload (Wire.strip_cr l) with
     | None =>
         Wire.terminated (l ++ lf :: r) = Wire.terminated r
         /\ Wire.deltas (l ++ lf :: r) = Wire.deltas r
     | Some pl =>
         if bool_decide (pl = Wire.sentinel) then
           Wire.terminated (l ++ lf :: r) = true
           /\ Wire.deltas (l ++ lf :: r) = []
         else
           Wire.terminated (l ++ lf :: r) = Wire.terminated r
           /\ Wire.deltas (l ++ lf :: r) = Wire.delta pl :: Wire.deltas r
     end.
Proof.
  intros Hl. split; [by apply tail_line|].
  pose proof (payloads_line l r Hl) as Hp. unfold Wire.deltas.
  destruct (Wire.payload (Wire.strip_cr l)) as [pl|].
  - rewrite (terminated_cons _ _ _ Hp), Hp. simpl.
    by destruct (bool_decide (pl = Wire.sentinel)).
  - unfold Wire.terminated. by rewrite Hp.
Qed.

(** Running the inner loop on a buffer applies the deltas of its complete
    lines up to the sentinel; it ends at the sentinel with the reader
    cancelled and the buffer emptied, or else with the unterminated tail
    left in the buffer. *)
Lemma processLines_wire s :
  processLines s =
  if Wire.terminated (buffer s) then
    mkLoop [] (decoder s) (reader_cancel (reader s))
           (applyDeltas (Wire.deltas (buffer s)) (page s))
  else
    mkLoop (Wire.tail (buffer s)) (decoder s) (reader s)
           (applyDeltas (Wire.deltas (buffer s)) (page s)).
Proof.
  apply (processLines_ind' (fun s r =>
    r = if Wire.terminated (buffer s) then
          mkLoop [] (decoder s) (reader_cancel (reader s))
                 (applyDeltas (Wire.deltas (buffer s)) (page s))
        else
          mkLoop (Wire.tail (buffer s)) (decoder s) (reader s)
                 (applyDeltas (Wire.deltas (buffer s)) (page s)))); clear s.
  - intros [b d rd pg] E. simpl in *.
    destruct (buffer_cases b) as [[Hb _] | (l & r & _ & _ & E')];
      [|rewrite E' in E; lia].
    unfold Wire.terminated, Wire.deltas, Wire.tail.
    by rewrite payloads_no_lf, split_no_lf.
  - intros [b d rd pg] E F. simpl in *.
    destruct (buffer_cases b) as [[_ E'] | (l & r & -> & Hl & E')]; [done|].
    rewrite E', slice_line, frameOf_wire in F.
    destruct (wire_line l r Hl) as [_ H].
    destruct (Wire.payload (Wire.strip_cr l)) as [pl|]; [|done].
    destruct (bool_decide (pl = Wire.sentinel)); [|done].
    destruct H as [-> ->]. done.
  - intros [b dc rd pg] d s' E F -> IH. rewrite IH. clear IH. simpl in *.
    destruct (buffer_cases b) as [[_ E'] | (l & r & -> & Hl & E')]; [done|].
    rewrite E', slice_line, frameOf_wire in F. rewrite E', slice_rest.
    destruct (wire_line l r Hl) as [-> H].
    destruct (Wire.payload (Wire.strip_cr l)) as [pl|]; [|done].
    destruct (bool_decide (pl = Wire.sentinel)); [done|].
    destruct H as [-> ->]. by injection F as <-.
  - intros [b dc rd pg] s' E F -> IH. rewrite IH. clear IH. simpl in *.
    destruct (buffer_cases b) as [[_ E'] | (l & r & -> & Hl & E')]; [done|].
    rewrite E', slice_line, frameOf_wire in F. rewrite E', slice_rest.
    destruct (wire_line l r Hl) as [-> H].
    destruct (Wire.payload (Wire.strip_cr l)) as [pl|];
      [by destruct (bool_decide (pl = Wire.sentinel))|].
    by destruct H as [-> ->].
Qed.

(** ** The read loop against the wire protocol *)

(** The read loop, unfolded once. *)
Lemma readLoop_eq s :
  readLoop s =
  match reader_read (reader s) with
  | ReadDone => (s, Normal)
  | ReadThrows e => (s, Throw e)
  | ReadValue value r =>
      let '(decoder', decoded) := decode (decoder s) value in
      readLoop (processLines (mkLoop (buffer s ++ decoded) decoder' r (page s)))
  end.
Proof.
  funelim (readLoop s);
    match goal with E : reader_read _ = _ |- _ => by rewrite E end.
Qed.

Lemma decode_app d a b :
  decode d (a ++ b) =
  let '(d1, s1) := decode d a in
  let '(d2, s2) := decode d1 b in
  (d2, s1 ++ s2).
Proof.
  revert d. induction a as [|x a IH]; intros d; simpl.
  - by destruct (decode d b).
  - destruct (process_byte d (Byte.to_N x)) as [d1 cps].
    destruct (serialize d1 cps) as [d2 s1]. rewrite IH.
    destruct (decode d2 a) as [d3 s2]. destruct (decode d3 b) as [d4 s3].
    by rewrite app_assoc.
Qed.

Lemma before_sentinel_app ps qs :
  Wire.before_sentinel (ps ++ qs) =
  if bool_decide (Wire.sentinel ∈ ps) then Wire.before_sentinel ps
  else ps ++ Wire.before_sentinel qs.
Proof.
  induction ps as [|p ps IH]; simpl.
  - done.
  - destruct (bool_decide (p = Wire.sentinel)) eqn:E.
    + apply bool_decide_eq_true_1 in E as ->.
      rewrite bool_decide_eq_true_2; [done|]. apply elem_of_cons. by left.
    + apply bool_decide_eq_false_1 in E. rewrite IH.
      rewrite (bool_decide_ext (Wire.sentinel ∈ p :: ps) (Wire.sentinel ∈ ps)).
      * by destruct (bool_decide (Wire.sentinel ∈ ps)).
      * rewrite elem_of_cons. split; [|auto]. intros [?|?]; [congruence|done].
Qed.

Lemma payloads_app t1 t2 :
  Wire.payloads (t1 ++ t2) = Wire.payloads t1 ++ Wire.payloads (Wire.tail t1 ++ t2).
Proof. unfold Wire.payloads. by rewrite lines_app, omap_app. Qed.

(** Once a text holds the sentinel frame, what follows it changes nothing. *)
Lemma terminated_app t1 t2 :
  Wire.terminated t1 = true ->
  Wire.terminated (t1 ++ t2) = true /\ Wire.deltas (t1 ++ t2) = Wire.deltas t1.
Proof.
  unfold Wire.terminated, Wire.deltas. intros H. rewrite payloads_app.
  rewrite before_sentinel_app, H. split; [|done].
  apply bool_decide_eq_true_1 in H. apply bool_decide_eq_true_2.
  apply elem_of_app. by left.
Qed.

(** Until then, the frames of a text extend those of its prefix. *)
Lemma unterminated_app t1 t2 :
  Wire.terminated t1 = false ->
  Wire.terminated (t1 ++ t2) = Wire.terminated (Wire.tail t1 ++ t2)
  /\ Wire.deltas (t1 ++ t2) = Wire.deltas t1 ++ Wire.deltas (Wire.tail t1 ++ t2).
Proof.
  unfold Wire.terminated, Wire.deltas. intros H. rewrite payloads_app.
  rewrite before_sentinel_app, H. apply bool_decide_eq_false_1 in H. split.
  - apply bool_decide_ext. rewrite elem_of_app. tauto.
  - rewrite fmap_app. f_equal. f_equal.
    clear -H. induction (Wire.payloads t1) as [|p ps IH]; [done|]. simpl.
    rewrite not_elem_of_cons in H. destruct H as [H1 H2].
    rewrite bool_decide_eq_false_2 by done. f_equal. auto.
Qed.

Lemma wire_no_lf t :
  lf ∉ t -> Wire.terminated t = false /\ Wire.deltas t = [] /\ Wire.tail t = t.
Proof.
  intros H. unfold Wire.terminated, Wire.deltas, Wire.tail.
  rewrite payloads_no_lf, split_no_lf by done. split; [|done].
  apply bool_decide_eq_false_2, not_elem_of_nil.
Qed.

Lemma applyDeltas_app ds1 ds2 p :
  applyDeltas (ds1 ++ ds2) p = applyDeltas ds2 (applyDeltas ds1 p).
Proof. apply foldl_app. Qed.

(** The read loop over the chunks [cs], entered with an unterminated tail
    [b] in the buffer: it applies the deltas of the text [b] followed by
    everything the decoder makes of the chunks, and stops at the sentinel. *)
Lemma readLoop_wire cs : forall b d f p,
  lf ∉ b ->
  let txt := b ++ snd (decode d (concat cs)) in
  let r := readLoop (mkLoop b d (mkReader cs f false) p) in
  page (fst r) = applyDeltas (Wire.deltas txt) p
  /\ buffer (fst r) = (if Wire.terminated txt then [] else Wire.tail txt)
  /\ cancelled (reader (fst r)) = Wire.terminated txt
  /\ snd r = (if Wire.terminated txt then Normal else stream_end f).
Proof.
  induction cs as [|c cs IH]; intros b d f p Hb; cbv zeta.
  - rewrite readLoop_eq. simpl. rewrite app_nil_r.
    destruct (wire_no_lf b Hb) as (-> & -> & ->).
    by destruct f.
  - rewrite readLoop_eq. simpl. rewrite decode_app.
    destruct (decode d c) as [d1 t1].
    destruct (decode d1 (concat cs)) as [d2 t2] eqn:E2. cbn [snd].
    rewrite processLines_wire. cbn [buffer decoder reader page].
    rewrite app_assoc.
    destruct (Wire.terminated (b ++ t1)) eqn:Ht.
    + destruct (terminated_app (b ++ t1) t2 Ht) as [-> ->].
      rewrite readLoop_eq. done.
    + destruct (unterminated_app (b ++ t1) t2 Ht) as [-> ->].
      rewrite (tail_app (b ++ t1) t2), applyDeltas_app.
      specialize (IH (Wire.tail (b ++ t1)) d1 f
                     (applyDeltas (Wire.deltas (b ++ t1)) p) (tail_no_lf _)).
      cbv zeta in IH. rewrite E2 in IH. cbn [snd] in IH. exact IH.
Qed.

(** ** The send operation as a whole *)

Lemma applyDeltas_resolved ds : forall p idx,
  assistantIndexRef p = Some idx ->
  0 <= idx < Z.of_nat (length (messages p)) ->
  applyDeltas ds p =
  mkPage (input p) (loading p)
         (alter (fun m => mkMsg (role m) (text m ++ concat ds)) (Z.to_nat idx) (messages p))
         (Some idx).
Proof.
  induction ds as [|d ds IH]; intros p idx Href Hidx.
  - unfold applyDeltas. simpl. rewrite list_alter_id.
    + destruct p; simpl in *; by subst.
    + intros [r t]; simpl. by rewrite app_nil_r.
  - change (applyDeltas (d :: ds) p) with (applyDeltas ds (appendToAssistant d p)).
    rewrite (appendToAssistant_resolved _ _ _ Href Hidx).
    rewrite (IH _ idx); [|done|simpl; rewrite length_alter; lia].
    simpl. f_equal. rewrite list_alter_alter_eq. apply list_alter_ext; [|done].
    intros [r t] _. simpl. by rewrite app_assoc.
Qed.

Lemma applyDeltas_streaming ds p answer :
  applyDeltas ds (streaming p answer) = streaming p (answer ++ concat ds).
Proof.
  unfold streaming.
  rewrite (applyDeltas_resolved ds _ (Z.of_nat (S (length (messages p))))); simpl.
  - f_equal. rewrite Nat2Z.id.
    replace (S (length (messages p))) with (length (messages p) + 1)%nat by lia.
    by rewrite alter_app_r.
  - done.
  - rewrite length_app. simpl. lia.
Qed.

Lemma appendToAssistant_streaming d p answer :
  appendToAssistant d (streaming p answer) = streaming p (answer ++ d).
Proof.
  pose proof (applyDeltas_streaming [d] p answer) as H.
  unfold concat in H. rewrite app_nil_r in H. exact H.
Qed.

Lemma canSend_true p :
  canSend p = true <-> trim (input p) <> [] /\ loading p = false.
Proof.
  unfold canSend. rewrite andb_true_iff, negb_true_iff, Z.ltb_lt.
  destruct (trim (input p)); simpl; split; intros [? ?]; split; try done; lia.
Qed.

(** [onSend] when the send goes through: the state updates, then the
    [try] block run on [sent p], the handler, and the [finally]. *)
Lemma onSend_accepted net p :
  canSend p = true ->
  onSend net p =
  try_catch_finally
    (tryBlock net)
    (fun e p =>
       let msg := trim (js "Streaming failed. " ++ default (js "") (message e)) in
       (appendToAssistant (LF ++ LF ++ msg) p, Normal))
    (fun p => (setLoading false p, Normal))
    (sent p).
Proof.
  intros [Hq Hl]%canSend_true. unfold onSend. cbv zeta.
  rewrite bool_decide_eq_false_2 by done. rewrite Hl. simpl.
  unfold sent, streaming, setMessages, setAssistantIndexRef, setLoading, setInput. simpl.
  rewrite length_app. simpl. rewrite <- app_assoc. simpl.
  do 3 f_equal. f_equal. lia.
Qed.

(** [onSend] over a response with a success status and a body: the
    in-flight Message ends up holding the deltas of the decoded stream, in
    order, followed by the failure notice when the stream broke before a
    sentinel. *)
Lemma onSend_stream p st tr jr cs f :
  canSend p = true ->
  in_range 200 299 st = true ->
  let txt := decoded (concat cs) in
  onSend (Resolves (mkResponse st tr jr (Some (mkStream cs f)))) p
  = (answered p
       (concat (Wire.deltas txt)
        ++ (if Wire.terminated txt then []
            else match f with
                 | Some e => notice e
                 | None => []
                 end)),
     Normal).
Proof.
  intros Hp Hst txt. rewrite onSend_accepted by done.
  unfold try_catch_finally, tryBlock, ok. cbn [status body]. rewrite Hst.
  cbn [negb]. cbv zeta.
  pose proof (readLoop_wire cs [] newTextDecoder f (sent p)
                            (not_elem_of_nil _)) as H.
  cbv zeta in H. rewrite app_nil_l in H. fold (decoded (concat cs)) in H. fold txt in H.
  unfold getReader. cbn [chunks ends_with]. change (js "") with (@nil N) in *.
  destruct (readLoop _) as [s c]. cbn [fst snd] in H.
  destruct H as (Hpage & _ & _ & Hc). rewrite Hpage, Hc.
  unfold sent. rewrite applyDeltas_streaming, app_nil_l.
  destruct (Wire.terminated txt).
  - by rewrite app_nil_r.
  - destruct f as [e|]; cbn [stream_end].
    + cbv zeta. fold (notice e). by rewrite appendToAssistant_streaming.
    + by rewrite app_nil_r.
Qed.

(** ** The frame parser: deltas, chunking, sentinel *)

(** C1. For every byte stream that a successful response delivers (in
    whatever chunks) and that ends cleanly, the send operation leaves in
    the in-flight assistant Message exactly the concatenation of the deltas
    of the decoded stream: the payloads of all [data:] lines before the
    sentinel frame, each being the line after the five-character prefix
    with one separator space stripped at most (further spaces kept), an
    empty payload counting as a newline.  The rest of the Transcript is
    the old Transcript followed by the question. *)
Theorem C1_deltas_are_payloads p st tr jr cs :
  canSend p = true ->
  in_range 200 299 st = true ->
  onSend (Resolves (mkResponse st tr jr (Some (mkStream cs None)))) p
  = (answered p
       (concat (Wire.delta <$>
                  Wire.before_sentinel (Wire.payloads (decoded (concat cs))))),
     Normal).
Proof.
  intros Hp Hst. rewrite onSend_stream by done. cbv zeta.
  fold (Wire.deltas (decoded (concat cs))).
  destruct (Wire.terminated _); by rewrite app_nil_r.
Qed.

(** The three lines [data: Hello], [data:  Hello] and [data:] yield the
    deltas [Hello], [ Hello] (one space kept) and a newline. *)
Lemma C1_deltas_are_payloads_witness :
  onSend (streamed [bytes "data: Hello" ++ eol ++ bytes "data:  Hello" ++ eol
                    ++ bytes "data:" ++ eol] None) page_idle
  = (answered page_idle (js "Hello" ++ js " Hello" ++ LF), Normal).
Proof.
  exact (C1_deltas_are_payloads page_idle 200 _ _ _ eq_refl eq_refl).
Defined.

(** Three frames and the sentinel, cut at arbitrary places: the separator
    space of each frame is stripped, so the deltas [The answer] and
    [is 42.] are joined without a space. *)
Example onSend_the_answer :
  onSend (streamed [bytes "data: The ans"; bytes "wer" ++ eol ++ bytes "data: is 42." ++ eol
                    ++ bytes "data:[EN"; bytes "D]" ++ eol] None) page_idle
  = (answered page_idle (js "The answeris 42."), Normal).
Proof. reflexivity. Qed.

Lemma onSend_rejected net p : canSend p = false -> onSend net p = (p, Normal).
Proof.
  unfold canSend, onSend. cbv zeta. intros H.
  destruct (loading p); [by rewrite orb_true_r|].
  rewrite andb_true_r in H. apply Z.ltb_ge in H.
  destruct (trim (input p)); [done|]. simpl in H. lia.
Qed.

(** Two streams whose decoded texts hold the same frames are the same to
    [onSend]. *)
Lemma onSend_same_frames p st tr jr cs1 cs2 f :
  Wire.deltas (decoded (concat cs1)) = Wire.deltas (decoded (concat cs2)) ->
  Wire.terminated (decoded (concat cs1)) = Wire.terminated (decoded (concat cs2)) ->
  onSend (Resolves (mkResponse st tr jr (Some (mkStream cs1 f)))) p
  = onSend (Resolves (mkResponse st tr jr (Some (mkStream cs2 f)))) p.
Proof.
  intros Hd Ht. destruct (canSend p) eqn:Hp; [|by rewrite !onSend_rejected].
  destruct (in_range 200 299 st) eqn:Hst.
  - rewrite !onSend_stream by done. cbv zeta. by rewrite Hd, Ht.
  - rewrite !onSend_accepted by done.
    unfold try_catch_finally, tryBlock, ok. cbn [status]. by rewrite Hst.
Qed.

(** C2. For every byte stream and any two ways of cutting it into chunks,
    the send operation ends in the same page state, hence with the same
    in-flight Message text; where the cuts fall (inside a line, inside a
    multi-byte character, after several lines) is irrelevant. *)
Theorem C2_chunk_boundary_invariance p st tr jr cs1 cs2 f :
  concat cs1 = concat cs2 ->
  onSend (Resolves (mkResponse st tr jr (Some (mkStream cs1 f)))) p
  = onSend (Resolves (mkResponse st tr jr (Some (mkStream cs2 f)))) p.
Proof.
  intros Hcs. apply onSend_same_frames; by rewrite Hcs.
Qed.

(** A stream cut inside the three bytes of the euro sign and across lines,
    against the same stream in one piece. *)
Lemma C2_chunk_boundary_invariance_witness :
  onSend (streamed [bytes "da"; bytes "ta: 5 " ++ [xe2; x82]; [xac] ++ eol ++ bytes "data: up";
                    eol ++ bytes "data:[END]" ++ eol] None) page_idle
  = onSend (streamed [bytes "data: 5 " ++ [xe2; x82; xac] ++ eol ++ bytes "data: up"
                      ++ eol ++ bytes "data:[END]" ++ eol] None) page_idle.
Proof.
  exact (C2_chunk_boundary_invariance page_idle 200 _ _ _ _ None eq_refl).
Defined.

(** One byte per chunk is one of these ways. *)
Lemma onSend_bytewise p st tr jr stream f :
  onSend (Resolves (mkResponse st tr jr (Some (mkStream ((fun b => [b]) <$> stream) f)))) p
  = onSend (Resolves (mkResponse st tr jr (Some (mkStream [stream] f)))) p.
Proof.
  assert (concat ((fun b => [b]) <$> stream) = concat [stream]) as Hcs.
  { simpl concat at 2. rewrite app_nil_r.
    induction stream as [|b bs IH]; [done|]. cbn. f_equal. exact IH. }
  apply onSend_same_frames; by rewrite Hcs.
Qed.

(** ** The single-operation guard *)

(** A send run from the render of the current state: with [loading] true
    or a blank input, [onSend] returns at once and leaves the state as it
    was. *)
Lemma onSend_guard_rejects net p :
  loading p = true \/ trim (input p) = [] ->
  onSend net p = (p, Normal).
Proof.
  intros H. apply onSend_rejected. unfold canSend.
  destruct H as [-> | ->]; [apply andb_false_r | done].
Qed.

(** [onSend] is a send made from the render of the state it runs on. *)
Lemma onSend_split net p :
  onSend net p =
  match onSend_begin (render_of p) p with
  | None => (p, Normal)
  | Some p' => onSend_rest net p'
  end.
Proof.
  unfold onSend, onSend_begin, onSend_rest, render_of. cbn [seen_input seen_loading].
  cbv zeta. by destruct (bool_decide _ || loading p).
Qed.

(** The guard looks at the render only: a send that passes it passes it
    again from the same render, whatever happened to the state since. *)
Lemma onSend_begin_same_render r p p' :
  is_Some (onSend_begin r p) -> is_Some (onSend_begin r p').
Proof.
  unfold onSend_begin. cbv zeta.
  destruct (bool_decide _ || seen_loading r); [by intros [? [=]]|by eexists].
Qed.


(** ** The sentinel *)

(** Chunks that arrive after the loop has seen the sentinel stay unread. *)
Lemma readLoop_unread cs : forall b d f p more,
  lf ∉ b ->
  Wire.terminated (b ++ snd (decode d (concat cs))) = true ->
  readLoop (mkLoop b d (mkReader (cs ++ more) f false) p)
  = let '(s, c) := readLoop (mkLoop b d (mkReader cs None false) p) in
    (mkLoop (buffer s) (decoder s)
            (mkReader (pending (reader s) ++ more) f (cancelled (reader s)))
            (page s), c).
Proof.
  induction cs as [|c cs IH]; intros b d f p more Hb Ht.
  - simpl in Ht. rewrite app_nil_r in Ht.
    destruct (wire_no_lf b Hb) as (Hn & _). congruence.
  - rewrite (readLoop_eq (mkLoop b d (mkReader (c :: cs) None false) p)).
    rewrite <- app_comm_cons, readLoop_eq. simpl.
    simpl in Ht. rewrite decode_app in Ht.
    destruct (decode d c) as [d1 t1].
    destruct (decode d1 (concat cs)) as [d2 t2] eqn:E2. cbn [snd] in Ht.
    rewrite !processLines_wire. cbn [buffer decoder reader page].
    rewrite app_assoc in Ht.
    destruct (Wire.terminated (b ++ t1)) eqn:Ht1.
    + rewrite !readLoop_eq. done.
    + destruct (unterminated_app (b ++ t1) t2 Ht1) as [Ht2 _]. rewrite Ht2 in Ht.
      apply IH; [apply tail_no_lf|]. by rewrite E2.
Qed.

(** The loop cancels the reader exactly when the decoded stream holds a
    sentinel frame. *)
Lemma readLoop_cancels stream p :
  cancelled (reader (fst (readLoop (start stream p))))
  = Wire.terminated (decoded (concat (chunks stream))).
Proof.
  destruct stream as [cs f]. unfold start, getReader. cbn [chunks ends_with].
  destruct (readLoop_wire cs [] newTextDecoder f p (not_elem_of_nil _))
    as (_ & _ & Hc & _).
  exact Hc.
Qed.

(** When the stream [bs1] alone makes the loop reach the sentinel, any
    stream that starts with [bs1] ends the same way. *)
Lemma readLoop_sentinel p bs1 bs2 cs f :
  cancelled (reader (fst (readLoop (start (mkStream [bs1] None) p)))) = true ->
  concat cs = bs1 ++ bs2 ->
  let r := readLoop (start (mkStream cs f) p) in
  page (fst r) = page (fst (readLoop (start (mkStream [bs1] None) p)))
  /\ buffer (fst r) = []
  /\ cancelled (reader (fst r)) = true
  /\ snd r = Normal
  /\ Wire.terminated (decoded (concat cs)) = true.
Proof.
  intros H1 Hcs r. subst r. unfold start, getReader in *. cbn [chunks ends_with] in *.
  change (js "") with (@nil N) in *.
  destruct (readLoop_wire [bs1] [] newTextDecoder None p (not_elem_of_nil _))
    as (Hp1 & _ & Hc1 & _).
  destruct (readLoop_wire cs [] newTextDecoder f p (not_elem_of_nil _))
    as (Hp & Hb & Hc & Hn).
  cbv zeta in *. rewrite H1 in Hc1. simpl concat in Hc1, Hp1.
  rewrite app_nil_r, app_nil_l in Hc1, Hp1. rewrite app_nil_l in Hp, Hb, Hc, Hn.
  rewrite Hcs, decode_app in Hp, Hb, Hc, Hn.
  unfold decoded. rewrite Hcs, decode_app.
  destruct (decode newTextDecoder bs1) as [d1 t1].
  destruct (decode d1 bs2) as [d2 t2]. cbn [snd] in *.
  destruct (terminated_app t1 t2 (eq_sym Hc1)) as [Ht Hd].
  rewrite Ht in Hb, Hc, Hn. rewrite Hd in Hp. by rewrite Hp1.
Qed.

(** C3. Once the sentinel line has been read (the stream [bs1] alone makes
    the loop cancel the reader), nothing that follows it is applied: for
    any bytes [bs2] after it, delivered with [bs1] in any chunks [cs], and
    any later chunks [more], the loop ends with the page it reaches on
    [bs1] alone, with the decode buffer empty, normally, with the reader
    cancelled and the chunks [more] still unread in the stream; the send
    operation leaves the same page as for [bs1] alone. *)
Theorem C3_sentinel_stops_parser p bs1 bs2 cs more f st tr jr :
  cancelled (reader (fst (readLoop (start (mkStream [bs1] None) p)))) = true ->
  concat cs = bs1 ++ bs2 ->
  let r := readLoop (start (mkStream (cs ++ more) f) p) in
  page (fst r) = page (fst (readLoop (start (mkStream [bs1] None) p)))
  /\ buffer (fst r) = []
  /\ cancelled (reader (fst r)) = true
  /\ snd r = Normal
  /\ (exists unread, pending (reader (fst r)) = unread ++ more)
  /\ fst (onSend (Resolves (mkResponse st tr jr (Some (mkStream (cs ++ more) f)))) p)
     = fst (onSend (Resolves (mkResponse st tr jr (Some (mkStream [bs1] None)))) p).
Proof.
  intros H1 Hcs r.
  destruct (readLoop_sentinel p bs1 bs2 cs None H1 Hcs) as (Hp & Hb & Hc & Hn & Ht).
  cbv zeta in *.
  assert (r = let '(s, c) := readLoop (start (mkStream cs None) p) in
              (mkLoop (buffer s) (decoder s)
                      (mkReader (pending (reader s) ++ more) f (cancelled (reader s)))
                      (page s), c)) as Hr.
  { subst r. unfold start, getReader. cbn [chunks ends_with].
    apply readLoop_unread; [apply not_elem_of_nil|]. exact Ht. }
  destruct (readLoop (start (mkStream cs None) p)) as [s c]. cbn [fst snd] in *.
  rewrite Hr. cbn [fst snd buffer reader page cancelled pending].
  repeat split; try done; [by eexists|].
  destruct (canSend p) eqn:Hcan; [|by rewrite !onSend_rejected].
  destruct (in_range 200 299 st) eqn:Hst.
  - rewrite !onSend_stream by done. cbv zeta.
    assert (decoded (concat (cs ++ more)) = decoded (concat cs) ++
            snd (decode (fst (decode newTextDecoder (concat cs))) (concat more))) as ->.
    { unfold decoded. rewrite concat_app, decode_app.
      destruct (decode newTextDecoder (concat cs)) as [d1 t1]. cbn [fst].
      by destruct (decode d1 (concat more)). }
    destruct (terminated_app (decoded (concat cs)) 
                (snd (decode (fst (decode newTextDecoder (concat cs))) (concat more))) Ht)
      as [-> ->].
    assert (decoded (concat cs) = decoded bs1 ++
            snd (decode (fst (decode newTextDecoder bs1)) bs2)) as Hd.
    { unfold decoded. rewrite Hcs, decode_app.
      destruct (decode newTextDecoder bs1) as [d1 t1]. cbn [fst].
      by destruct (decode d1 bs2). }
    assert (Wire.terminated (decoded bs1) = true) as Ht1.
    { unfold start, getReader in H1. cbn [chunks ends_with] in H1.
      destruct (readLoop_wire [bs1] [] newTextDecoder None p (not_elem_of_nil _))
        as (_ & _ & Hc1 & _).
      cbv zeta in Hc1. change (js "") with (@nil N) in H1. rewrite H1 in Hc1.
      simpl concat in Hc1. rewrite app_nil_r, app_nil_l in Hc1. by symmetry. }
    rewrite Hd.
    destruct (terminated_app (decoded bs1) 
                (snd (decode (fst (decode newTextDecoder bs1)) bs2)) Ht1) as [_ ->].
    change (concat [bs1]) with (bs1 ++ []). rewrite (app_nil_r bs1). by rewrite Ht1.
  - rewrite !onSend_accepted by done.
    unfold try_catch_finally, tryBlock, ok. cbn [status]. by rewrite Hst.
Qed.

Lemma C3_sentinel_stops_parser_witness :
  let bs1 := bytes "data: A" ++ eol ++ bytes "data:[END]" ++ eol in
  let bs2 := bytes "data: B" ++ eol in
  let cs := [bytes "data: A" ++ eol ++ bytes "data:[E";
             bytes "ND]" ++ eol ++ bytes "data: B" ++ eol] in
  let more := [bytes "data: C" ++ eol] in
  let r := readLoop (start (mkStream (cs ++ more) None) page_idle) in
  page (fst r) = page (fst (readLoop (start (mkStream [bs1] None) page_idle)))
  /\ buffer (fst r) = []
  /\ cancelled (reader (fst r)) = true
  /\ snd r = Normal
  /\ (exists unread, pending (reader (fst r)) = unread ++ more)
  /\ fst (onSend (streamed (cs ++ more) None) page_idle)
     = fst (onSend (streamed [bs1] None) page_idle).
Proof.
  intros bs1 bs2 cs more.
  exact (C3_sentinel_stops_parser page_idle bs1 bs2 cs more None 200 _ _
           eq_refl eq_refl).
Defined.

(** ** Line terminators *)

Lemma strip_cr_crlf l : Wire.strip_cr (l ++ CR) = l.
Proof.
  unfold Wire.strip_cr, CR. rewrite rev_app_distr. simpl.
  by rewrite rev_involutive.
Qed.

Lemma strip_cr_plain l : last l <> Some cr -> Wire.strip_cr l = l.
Proof.
  unfold Wire.strip_cr. intros H. destruct (rev l) as [|c r] eqn:E; [done|].
  destruct (N.eqb_spec c 13) as [->|]; [|done]. exfalso. apply H.
  rewrite <- (rev_involutive l), E. simpl. by rewrite last_snoc.
Qed.

Lemma payloads_lf_crlf ls :
  Forall (fun l => (lf ∉ l) /\ last l <> Some cr) ls ->
  Wire.payloads (terminated_by (CR ++ LF) ls) = Wire.payloads (terminated_by LF ls).
Proof.
  unfold terminated_by. induction 1 as [|l ls [Hlf Hcr] _ IH]; [done|].
  cbn [fmap list_fmap concat]. unfold CR, LF in *. simpl app in *.
  rewrite <- !app_assoc. simpl app.
  change (l ++ cr :: lf :: ?r) with (l ++ [cr] ++ lf :: r).
  rewrite (app_assoc l [cr]).
  rewrite !payloads_line, IH; [|done|].
  - fold CR. by rewrite strip_cr_crlf, strip_cr_plain.
  - rewrite elem_of_app, list_elem_of_singleton. intros [?|?]; done.
Qed.




(** *** Streams of ASCII bytes

    For bytes below 128 the decoder emits each byte as a code unit, so the
    condition on the decoded texts is one on the bytes themselves. *)

Lemma decode_ascii bs : forall d,
  bytesNeeded d = 0%N ->
  Forall (fun b => (Byte.to_N b < 128)%N) bs ->
  snd (decode d bs) = code_units bs.
Proof.
  induction bs as [|b bs IH]; intros d Hd Hbs; [done|].
  inversion_clear Hbs as [|? ? Hb Hrest]. unfold code_units in *. cbn [decode].
  unfold process_byte, utf8_handler. rewrite Hd. cbn [N.eqb].
  assert (in_range 0 127 (Byte.to_N b) = true) as ->.
  { unfold in_range. apply andb_true_intro. split; apply N.leb_le; lia. }
  cbn [emitted serialize]. unfold serialize_item, utf16.
  assert ((Byte.to_N b <? 65536)%N = true) as -> by (apply N.ltb_lt; lia).
  assert ((Byte.to_N b =? 65279)%N = false) as -> by (apply N.eqb_neq; lia).
  destruct (bomSeen d).
  - specialize (IH d Hd Hrest). destruct (decode d bs) as [d3 s2].
    cbn [snd] in *. cbn [fmap list_fmap]. by rewrite <- IH.
  - match goal with |- context [decode ?d' bs] => specialize (IH d' Hd Hrest);
      destruct (decode d' bs) as [d3 s2] end.
    cbn [snd] in *. cbn [fmap list_fmap]. by rewrite <- IH.
Qed.

Lemma to_N_inj b1 b2 : Byte.to_N b1 = Byte.to_N b2 -> b1 = b2.
Proof.
  intros H. pose proof (Byte.of_to_N b1) as H1. rewrite H in H1.
  rewrite Byte.of_to_N in H1. congruence.
Qed.

Lemma code_units_terminated_by (term : list byte) (bl : list (list byte)) :
  code_units (concat ((fun l => l ++ term) <$> bl))
  = terminated_by (code_units term) (code_units <$> bl).
Proof.
  unfold terminated_by, code_units. induction bl as [|l bl IH]; [done|].
  cbn [fmap list_fmap concat]. rewrite !fmap_app. f_equal. exact IH.
Qed.

(** A stream of ASCII lines terminated by CR LF is to [onSend] the stream
    of the same lines terminated by LF. *)
Lemma onSend_crlf_ascii p st tr jr f (bl : list (list byte)) :
  Forall (fun l => Forall (fun b => (Byte.to_N b < 128)%N) l
                   /\ (x0a ∉ l) /\ last l <> Some x0d) bl ->
  onSend (Resolves (mkResponse st tr jr
            (Some (mkStream [concat ((fun l => l ++ crlf) <$> bl)] f)))) p
  = onSend (Resolves (mkResponse st tr jr
              (Some (mkStream [concat ((fun l => l ++ eol) <$> bl)] f)))) p.
Proof.
  intros Hbl.
  assert (forall term, Forall (fun b => (Byte.to_N b < 128)%N) term ->
            decoded (concat [concat ((fun l => l ++ term) <$> bl)])
            = terminated_by (code_units term) (code_units <$> bl)) as Hdec.
  { intros term Hterm. cbn [concat]. rewrite app_nil_r. unfold decoded.
    rewrite decode_ascii; [apply code_units_terminated_by|done|].
    apply Forall_concat, Forall_fmap. eapply Forall_impl; [exact Hbl|].
    intros l (Hl & _). simpl. apply Forall_app. by split. }
  assert (Wire.payloads (decoded (concat [concat ((fun l => l ++ crlf) <$> bl)]))
          = Wire.payloads (decoded (concat [concat ((fun l => l ++ eol) <$> bl)])))
    as Hp.
  { rewrite !Hdec by (repeat constructor; simpl; lia).
    apply (payloads_lf_crlf (code_units <$> bl)).
    apply Forall_fmap. eapply Forall_impl; [exact Hbl|].
    intros l (_ & Hlf & Hcr). simpl. split.
    - unfold code_units. intros (b & Hb & Hin)%list_elem_of_fmap.
      apply (to_N_inj x0a b) in Hb. by subst.
    - unfold code_units. rewrite fmap_last. destruct (last l) as [b|]; [|done]. simpl.
      intros [= Hb]. apply (to_N_inj b x0d) in Hb. by subst. }
  apply onSend_same_frames; unfold Wire.deltas, Wire.terminated; by rewrite Hp.
Qed.


(** ** Transport failures *)

Lemma trimStart_keeps x y c :
  isWhiteSpace c = false -> exists x', trimStart (x ++ c :: y) = x' ++ c :: y.
Proof.
  intros Hc. induction x as [|a x IH]; simpl.
  - rewrite Hc. by exists [].
  - destruct (isWhiteSpace a); [done|]. by exists (a :: x).
Qed.

Lemma trim_keeps c0 a c b :
  isWhiteSpace c0 = false -> isWhiteSpace c = false ->
  exists rest, trim (c0 :: a ++ c :: b) = c0 :: a ++ c :: rest.
Proof.
  intros H0 Hc. unfold trim, trimEnd. cbn [trimStart]. rewrite H0.
  assert (rev (c0 :: a ++ c :: b) = rev b ++ c :: rev (c0 :: a)) as ->.
  { rewrite app_comm_cons, rev_app_distr. cbn [rev]. by rewrite <- !app_assoc. }
  destruct (trimStart_keeps (rev b) (rev (c0 :: a)) c Hc) as [x' ->].
  exists (rev x'). rewrite rev_app_distr. cbn [rev].
  rewrite !rev_app_distr, rev_involutive. cbn [rev app]. by rewrite <- !app_assoc.
Qed.

(** The notice is two newlines, then [Streaming failed.], then the rest. *)
Lemma notice_prefix e :
  exists rest, notice e = LF ++ LF ++ js "Streaming failed." ++ rest.
Proof.
  unfold notice. generalize (default (js "") (message e)). intros m.
  destruct (trim_keeps 83%N (js "treaming failed") 46%N (32%N :: m) eq_refl eq_refl)
    as [rest Hrest].
  exists rest. f_equal. f_equal. exact Hrest.
Qed.

(** When the [try] block throws, the handler appends the notice to what
    the placeholder holds, and [onSend] completes normally. *)
Lemma onSend_failed net p partial e :
  canSend p = true ->
  tryBlock net (sent p) = (streaming p partial, Throw e) ->
  onSend net p = (answered p (partial ++ notice e), Normal).
Proof.
  intros Hp Htry. rewrite onSend_accepted by done.
  unfold try_catch_finally. rewrite Htry. cbv zeta. fold (notice e).
  by rewrite appendToAssistant_streaming.
Qed.

Lemma tryBlock_failure net p partial :
  transport_failure net partial ->
  exists e, tryBlock net (sent p) = (streaming p partial, Throw e).
Proof.
  destruct 1 as [e | r Hok | r Hok Hb | r cs e Hok Hb Ht]; unfold tryBlock.
  - by exists e.
  - rewrite Hok. by eexists.
  - rewrite Hok, Hb. by eexists.
  - rewrite Hok, Hb. cbn [negb]. cbv zeta. exists e.
    pose proof (readLoop_wire cs [] newTextDecoder (Some e) (sent p)
                              (not_elem_of_nil _)) as H.
    cbv zeta in H. rewrite app_nil_l in H. fold (decoded (concat cs)) in H.
    rewrite Ht in H. unfold getReader. cbn [chunks ends_with].
    change (js "") with (@nil N) in *.
    destruct (readLoop _) as [s c]. cbn [fst snd] in H.
    destruct H as (-> & _ & _ & ->). unfold sent.
    by rewrite applyDeltas_streaming, app_nil_l.
Qed.

(** C5. When a transport failure occurs in a send operation (the request
    fails, the response has a non-success status or no body, or the stream
    breaks), the [try] block throws with the deltas applied so far in the
    in-flight Message (the operation fails); [onSend] then appends to that
    same Message a notice, two newlines and [Streaming failed.] followed by
    the error text, keeps every delta before it, clears the loading flag
    and completes normally: no exception escapes. *)
Theorem C5_transport_failure net p partial :
  canSend p = true ->
  transport_failure net partial ->
  exists e rest,
    tryBlock net (sent p) = (streaming p partial, Throw e)
    /\ onSend net p
       = (answered p (partial ++ LF ++ LF ++ js "Streaming failed." ++ rest), Normal).
Proof.
  intros Hp Hf. destruct (tryBlock_failure net p partial Hf) as [e He].
  destruct (notice_prefix e) as [rest Hrest].
  exists e, rest. split; [done|].
  rewrite (onSend_failed net p partial e Hp He). by rewrite Hrest.
Qed.

Lemma C5_transport_failure_witness :
  exists e rest,
    tryBlock http_500 (sent page_idle) = (streaming page_idle [], Throw e)
    /\ onSend http_500 page_idle
       = (answered page_idle ([] ++ LF ++ LF ++ js "Streaming failed." ++ rest), Normal).
Proof.
  apply (C5_transport_failure http_500 page_idle []); [reflexivity|].
  apply bad_status. reflexivity.
Defined.

(** What the user reads after that failure, and after a stream that broke
    in the middle of an answer. *)
Example onSend_http_500 :
  onSend http_500 page_idle
  = (answered page_idle (LF ++ LF ++ js "Streaming failed. HTTP 500."), Normal).
Proof. reflexivity. Qed.

Example onSend_broken_stream :
  onSend (streamed [bytes "data: The answer" ++ eol ++ bytes "data: is"]
                   (Some (Error (js "network error")))) page_idle
  = (answered page_idle
       (js "The answer" ++ LF ++ LF ++ js "Streaming failed. network error"), Normal).
Proof. reflexivity. Qed.

(** ** The relay endpoints *)

(** C4 (behaviour of the code at the failing inputs). When the backend
    answers with status 500 the streaming relay answers with status 200,
    the backend status is not forwarded; when the backend cannot be
    reached the exception of [fetch] escapes the handler, no response is
    built. *)
Theorem C4_relay_at_backend_failure :
  run (POST_ask_stream no_env (Resolves question)) backend_500
  = (Resolves (mkHttpResponse 200 [(js "Content-Type", js "text/event-stream")]
                 (BodyStream (mkStream [bytes "Internal Server Error"] None))),
     [mkFetchCall (js "http://127.0.0.1:8000/ask-stream") (js "POST")
                  json_headers question])
  /\ run (POST_ask_stream no_env (Resolves question)) backend_down
     = (Rejects (Error (js "fetch failed")),
        [mkFetchCall (js "http://127.0.0.1:8000/ask-stream") (js "POST")
                     json_headers question]).
Proof. split; reflexivity. Qed.

(** The sibling endpoint does both: it forwards the status and answers a
    failed request with a response of its own. *)
Example ask_at_backend_failure :
  (exists resp, fst (run (POST_ask no_env (Resolves question))
                         (fun _ => Resolves (mkResponse 500 (Resolves (js "{}"))
                                               (Resolves (JObject [])) None)))
                = Resolves resp /\ r_status resp = 500%N)
  /\ (exists resp, fst (run (POST_ask no_env (Resolves question)) backend_down)
                   = Resolves resp /\ r_status resp = 500%N).
Proof. split; eexists; split; reflexivity. Qed.

(** The streaming relay in general: whatever the backend status, the
    response has status 200 and the backend body as its body. *)
Lemma POST_ask_stream_resolved env reqBody backend r :
  backend (mkFetchCall (default default_base (NEXT_PUBLIC_API_BASE_URL env)
                          ++ js "/ask-stream") (js "POST") json_headers reqBody)
  = Resolves r ->
  fst (run (POST_ask_stream env (Resolves reqBody)) backend)
  = Resolves (mkHttpResponse 200 [(js "Content-Type", js "text/event-stream")]
                (match body r with Some s => BodyStream s | None => NoBody end)).
Proof.
  intros H. unfold run, POST_ask_stream, mbind, Handler_bind, await, fetch.
  cbv zeta. rewrite H. by destruct (body r).
Qed.

(** C9 as stated fails on the JSON revision: a backend that responds with
    status 502 and a body that is not JSON gets from the endpoint status
    500 and a [Proxy error] object, neither its status nor its body. *)
Lemma C9_status_not_always_preserved :
  let r := mkResponse 502 (Resolves (js "Bad Gateway"))
                      (Rejects (Error (js "Unexpected token B in JSON"))) None in
  exists resp,
    run (POST_ask no_env (Resolves question)) (fun _ => Resolves r)
    = (Resolves resp, [ask_call default_base question])
    /\ r_status resp <> status r
    /\ r_body resp
       = BodyJson (JObject [(js "error", JString (js "Proxy error"));
                            (js "detail", JString (js "Unexpected token B in JSON"))]).
Proof. eexists. split; [reflexivity|]. split; [simpl; lia|reflexivity]. Qed.

(** C9 (amended). For every request for which the backend responds with a
    status of the range 200..599 that admits a body, each revision of the
    non-streaming endpoint makes exactly one call to the backend, a POST
    of the request body to [/ask]; when the whole backend body is read (as
    JSON in the JSON revision, as text in the other) the endpoint returns
    it as one unit with the status code of the backend; in the JSON
    revision a body that is not JSON is answered with status 500 and a
    [Proxy error] object. *)
Theorem C9_ask_preserves_status env reqBody backend r :
  let base := default default_base (NEXT_PUBLIC_API_BASE_URL env) in
  let base' := default (default default_base (RAG_API_BASE env))
                       (NEXT_PUBLIC_API_BASE_URL env) in
  backend (ask_call base reqBody) = Resolves r ->
  backend (ask_call base' reqBody) = Resolves r ->
  in_range 200 599 (status r) = true ->
  null_body_status (status r) = false ->
  (forall data, json_result r = Resolves data ->
     run (POST_ask env (Resolves reqBody)) backend
     = (Resolves (mkHttpResponse (status r) [(js "content-type", js "application/json")]
                                 (BodyJson data)),
        [ask_call base reqBody]))
  /\ (forall e, json_result r = Rejects e ->
        exists detail,
          run (POST_ask env (Resolves reqBody)) backend
          = (Resolves (mkHttpResponse 500 [(js "content-type", js "application/json")]
                         (BodyJson (JObject ((js "error", JString (js "Proxy error"))
                                             :: detail)))),
             [ask_call base reqBody]))
  /\ (forall t, text_result r = Resolves t ->
        run (POST_ask_text env (Resolves reqBody)) backend
        = (Resolves (mkHttpResponse (status r) json_headers (BodyText t)),
           [ask_call base' reqBody])).
Proof.
  intros base base' Hb Hb' Hst Hnb. subst base base'.
  unfold run, POST_ask, POST_ask_text, try_catch, mbind, Handler_bind, await, fetch.
  cbv zeta. fold (ask_call (default default_base (NEXT_PUBLIC_API_BASE_URL env)) reqBody).
  fold (ask_call (default (default default_base (RAG_API_BASE env))
                          (NEXT_PUBLIC_API_BASE_URL env)) reqBody).
  rewrite Hb, Hb'. unfold NextResponse_json, newResponse.
  change (default 200%N (Some (status r))) with (status r). cbv zeta.
  rewrite Hst, Hnb. cbn [negb andb].
  split; [|split].
  - by intros data ->.
  - intros e ->. by eexists.
  - by intros t ->.
Qed.

Lemma C9_ask_preserves_status_witness :
  let r := mkResponse 201 (Resolves (js "{}")) (Resolves (JObject [])) None in
  (forall data, json_result r = Resolves data ->
     run (POST_ask no_env (Resolves question)) backend_201
     = (Resolves (mkHttpResponse (status r) [(js "content-type", js "application/json")]
                                 (BodyJson data)),
        [ask_call default_base question]))
  /\ (forall e, json_result r = Rejects e ->
        exists detail,
          run (POST_ask no_env (Resolves question)) backend_201
          = (Resolves (mkHttpResponse 500 [(js "content-type", js "application/json")]
                         (BodyJson (JObject ((js "error", JString (js "Proxy error"))
                                             :: detail)))),
             [ask_call default_base question]))
  /\ (forall t, text_result r = Resolves t ->
        run (POST_ask_text no_env (Resolves question)) backend_201
        = (Resolves (mkHttpResponse (status r) json_headers (BodyText t)),
           [ask_call default_base question])).
Proof.
  exact (C9_ask_preserves_status no_env question backend_201 _
           eq_refl eq_refl eq_refl eq_refl).
Defined.

(** * Further properties of the page *)

(** ** The send operation, whatever the network does *)

Lemma onSend_result net p :
  canSend p = true ->
  exists answer, onSend net p = (answered p answer, Normal).
Proof.
  intros Hp.
  assert (forall partial, transport_failure net partial ->
            exists answer, onSend net p = (answered p answer, Normal)) as Hfail.
  { intros partial Hf. destruct (tryBlock_failure net p partial Hf) as [e He].
    eexists. by apply onSend_failed. }
  destruct net as [r|e]; [|by apply (Hfail []), network_error].
  destruct (ok r) eqn:Hok; [|by apply (Hfail []), bad_status].
  destruct r as [st tr jr [[cs f]|]]; [|by apply (Hfail []), missing_body].
  eexists. by apply onSend_stream.
Qed.



(** The guard of [onSend] and the flag [canSend] that enables the send
    control agree: a send leaves the page as it was exactly when
    [canSend] is false. *)
Theorem onSend_noop_iff_cannot_send net p :
  fst (onSend net p) = p <-> canSend p = false.
Proof.
  split.
  - intros H. destruct (canSend p) eqn:Hp; [|done].
    destruct (onSend_result net p Hp) as [answer Ha].
    rewrite Ha in H. apply (f_equal (fun q => length (messages q))) in H.
    simpl in H. rewrite length_app in H. simpl in H. lia.
  - intros H. by rewrite onSend_rejected.
Qed.


(** Two operations in a row: the second send, made once the user has typed
    a new question [q2], appends its own two Messages and leaves the
    Messages of the first operation, its answer included, as they were. *)
Theorem onSend_twice net1 net2 p q2 :
  canSend p = true ->
  trim q2 <> [] ->
  exists a1 a2,
    fst (onSend net1 p) = answered p a1
    /\ messages (fst (onSend net2 (setInput q2 (fst (onSend net1 p)))))
       = messages p ++ [mkMsg user (trim (input p)); mkMsg assistant a1;
                        mkMsg user (trim q2); mkMsg assistant a2].
Proof.
  intros Hp Hq.
  destruct (onSend_result net1 p Hp) as [a1 H1]. rewrite H1. cbn [fst].
  assert (canSend (setInput q2 (answered p a1)) = true) as Hp2.
  { apply canSend_true. by split. }
  destruct (onSend_result net2 _ Hp2) as [a2 H2]. rewrite H2.
  exists a1, a2. split; [done|]. simpl. by rewrite <- app_assoc.
Qed.

Lemma onSend_twice_witness :
  exists a1 a2,
    fst (onSend http_500 page_idle) = answered page_idle a1
    /\ messages (fst (onSend (streamed [bytes "data: 42" ++ eol] None)
                             (setInput (js "and now?") (fst (onSend http_500 page_idle)))))
       = messages page_idle ++ [mkMsg user (trim (input page_idle)); mkMsg assistant a1;
                                mkMsg user (trim (js "and now?")); mkMsg assistant a2].
Proof.
  apply (onSend_twice http_500 (streamed [bytes "data: 42" ++ eol] None)
                      page_idle (js "and now?")); [reflexivity | by vm_compute].
Defined.

(** An error of the stream after the sentinel is never seen: once the
    chunks [cs] make the loop cancel the reader, the send ends the same
    whether the stream would then have ended cleanly or with an error. *)
Theorem onSend_error_after_sentinel p st tr jr cs e :
  cancelled (reader (fst (readLoop (start (mkStream cs None) p)))) = true ->
  onSend (Resolves (mkResponse st tr jr (Some (mkStream cs (Some e))))) p
  = onSend (Resolves (mkResponse st tr jr (Some (mkStream cs None)))) p.
Proof.
  rewrite readLoop_cancels. cbn [chunks]. intros Ht.
  destruct (canSend p) eqn:Hp; [|by rewrite !onSend_rejected].
  destruct (in_range 200 299 st) eqn:Hst.
  - rewrite !onSend_stream by done. cbv zeta. by rewrite Ht.
  - rewrite !onSend_accepted by done.
    unfold try_catch_finally, tryBlock, ok. cbn [status]. by rewrite Hst.
Qed.

Lemma onSend_error_after_sentinel_witness :
  onSend (streamed [bytes "data: done" ++ eol ++ bytes "data: [END]" ++ crlf]
                   (Some (Error (js "connection reset")))) page_idle
  = onSend (streamed [bytes "data: done" ++ eol ++ bytes "data: [END]" ++ crlf] None)
           page_idle.
Proof.
  exact (onSend_error_after_sentinel page_idle 200 _ _
           [bytes "data: done" ++ eol ++ bytes "data: [END]" ++ crlf]
           (Error (js "connection reset")) eq_refl).
Defined.

(** A response with a status outside 200..299 is reported without its
    stream being read: whatever the body, the answer is the notice made
    of the status code and of the response text (empty when reading the
    text fails). *)
Theorem onSend_bad_status p r :
  canSend p = true ->
  ok r = false ->
  onSend (Resolves r) p
  = (answered p
       (notice (Error (trim (js "HTTP " ++ ofNumber (status r) ++ js ". "
                               ++ match text_result r with
                                  | Resolves t => t
                                  | Rejects _ => js ""
                                  end)))),
     Normal).
Proof.
  intros Hp Hok.
  rewrite (onSend_failed (Resolves r) p []
             (Error (trim (js "HTTP " ++ ofNumber (status r) ++ js ". "
                             ++ match text_result r with
                                | Resolves t => t
                                | Rejects _ => js ""
                                end)))); [done|done|].
  unfold tryBlock. by rewrite Hok.
Qed.

Lemma onSend_bad_status_witness :
  onSend (Resolves (mkResponse 404 (Resolves (js "no such route ")) (Rejects (mkExn None))
                               (Some (mkStream [bytes "data: ignored" ++ eol] None))))
         page_idle
  = (answered page_idle (LF ++ LF ++ js "Streaming failed. HTTP 404. no such route"),
     Normal).
Proof.
  exact (onSend_bad_status page_idle
           (mkResponse 404 (Resolves (js "no such route ")) (Rejects (mkExn None))
                       (Some (mkStream [bytes "data: ignored" ++ eol] None)))
           eq_refl eq_refl).
Defined.

(** What follows the last line feed of a stream is dropped: a stream whose
    text is the complete lines [ls] followed by an unterminated rest ends
    the send like the stream of the lines [ls] alone. *)
Theorem onSend_unterminated_tail p st tr jr cs1 cs2 f ls rest :
  Forall (fun l => lf ∉ l) ls ->
  lf ∉ rest ->
  decoded (concat cs1) = terminated_by LF ls ->
  decoded (concat cs2) = terminated_by LF ls ++ rest ->
  onSend (Resolves (mkResponse st tr jr (Some (mkStream cs2 f)))) p
  = onSend (Resolves (mkResponse st tr jr (Some (mkStream cs1 f)))) p.
Proof.
  intros Hls Hrest H1 H2.
  assert (Wire.tail (terminated_by LF ls) = []) as Htail.
  { clear -Hls. unfold terminated_by. induction Hls as [|l ls Hl _ IH]; [done|].
    cbn [fmap list_fmap concat]. unfold LF in *. rewrite <- app_assoc. simpl app.
    by rewrite tail_line. }
  assert (Wire.payloads (decoded (concat cs2)) = Wire.payloads (decoded (concat cs1)))
    as Hp.
  { rewrite H1, H2, payloads_app, Htail, app_nil_l, (payloads_no_lf rest) by done.
    by rewrite app_nil_r. }
  apply onSend_same_frames; unfold Wire.deltas, Wire.terminated; by rewrite Hp.
Qed.

Lemma onSend_unterminated_tail_witness :
  onSend (streamed [bytes "data: Hello" ++ eol ++ bytes "data: lost"] None) page_idle
  = onSend (streamed [bytes "data: Hello" ++ eol] None) page_idle.
Proof.
  refine (onSend_unterminated_tail page_idle 200 _ _
            [bytes "data: Hello" ++ eol]
            [bytes "data: Hello" ++ eol ++ bytes "data: lost"] None
            [js "data: Hello"] (js "data: lost") _ _ eq_refl eq_refl).
  - apply (bool_decide_unpack _). vm_compute. exact I.
  - apply (bool_decide_unpack _). vm_compute. exact I.
Defined.

(** ** The delta-append operation *)

(** Deltas compose by concatenation: appending [d1] and then [d2] is
    appending [d1 ++ d2], and appending the empty delta changes nothing,
    whether or not the pointer resolves. *)
Theorem appendToAssistant_compose d1 d2 p :
  appendToAssistant d2 (appendToAssistant d1 p) = appendToAssistant (d1 ++ d2) p
  /\ appendToAssistant [] p = p.
Proof.
  destruct (assistantIndexRef p) as [idx|] eqn:Href.
  - destruct (decide (0 <= idx < Z.of_nat (length (messages p)))) as [Hidx|Hidx].
    + rewrite !(appendToAssistant_resolved _ p idx Href Hidx).
      rewrite (appendToAssistant_resolved d2 _ idx);
        [|done|simpl; rewrite length_alter; lia].
      simpl. split.
      * f_equal. rewrite list_alter_alter_eq. apply list_alter_ext; [|done].
        intros [r t] _. simpl. by rewrite app_assoc.
      * rewrite list_alter_id; [destruct p; simpl in *; by subst|].
        intros [r t]; simpl. by rewrite app_nil_r.
    + by rewrite !(appendToAssistant_unresolved _ p) by (rewrite Href; lia).
  - by rewrite !(appendToAssistant_unresolved _ p) by (by rewrite Href).
Qed.

(** ** The line loop and the read loop *)

(** The line loop consumes every complete line: it leaves no line feed in
    the buffer, so running it again changes nothing. *)
Theorem processLines_consumes_lines s :
  indexOf (buffer (processLines s)) LF = -1
  /\ processLines (processLines s) = processLines s.
Proof.
  assert (indexOf (buffer (processLines s)) LF = -1) as H.
  { rewrite processLines_wire. apply indexOf_LF_none.
    destruct (Wire.terminated (buffer s)); simpl;
      [apply not_elem_of_nil | apply tail_no_lf]. }
  split; [done|]. rewrite (processLines_eq (processLines s)). cbv zeta.
  by destruct (Z.eq_dec _ _).
Qed.

(** The line loop never touches the decoder or what the stream still
    holds, and it never clears a cancellation. *)
Theorem processLines_frame s :
  decoder (processLines s) = decoder s
  /\ pending (reader (processLines s)) = pending (reader s)
  /\ failure (reader (processLines s)) = failure (reader s)
  /\ (cancelled (reader s) = true -> cancelled (reader (processLines s)) = true).
Proof.
  rewrite processLines_wire.
  destruct (Wire.terminated (buffer s)); simpl; auto.
Qed.

(** An incomplete trailing line is carried over: as long as the line loop
    has not met the sentinel, running it on a buffer and then on what it
    left followed by more text is running it once on the buffer followed
    by that text. *)
Theorem processLines_carry_over s more :
  cancelled (reader (processLines s)) = false ->
  processLines (mkLoop (buffer (processLines s) ++ more) (decoder (processLines s))
                       (reader (processLines s)) (page (processLines s)))
  = processLines (mkLoop (buffer s ++ more) (decoder s) (reader s) (page s)).
Proof.
  intros Hc. rewrite !processLines_wire in *. cbn [buffer decoder reader page].
  destruct (Wire.terminated (buffer s)) eqn:Ht; [done|].
  cbn [buffer decoder reader page] in *.
  destruct (unterminated_app (buffer s) more Ht) as [-> ->].
  by rewrite (tail_app (buffer s) more), applyDeltas_app.
Qed.

Lemma processLines_carry_over_witness :
  let s := mkLoop (js "data: par") newTextDecoder (mkReader [] None false) page_demo in
  processLines (mkLoop (buffer (processLines s) ++ LF ++ js "data: t" ++ LF ++ js "da")
                       (decoder (processLines s))
                       (reader (processLines s)) (page (processLines s)))
  = processLines (mkLoop (buffer s ++ LF ++ js "data: t" ++ LF ++ js "da")
                         (decoder s) (reader s) (page s)).
Proof.
  intros s. apply (processLines_carry_over s). reflexivity.
Defined.

(** A line that does not begin with [data:] (once a trailing carriage
    return is removed) is skipped: the loop goes on with the text after
    it, and the page, the decoder and the reader are as they were. *)
Theorem processLines_skips_other_lines l r d rd pg :
  lf ∉ l ->
  startsWith (if endsWith l CR then slice l 0 (Some (-1)) else l) (js "data:") = false ->
  processLines (mkLoop (l ++ LF ++ r) d rd pg) = processLines (mkLoop r d rd pg).
Proof.
  intros Hl Hd. change (l ++ LF ++ r) with (l ++ lf :: r).
  rewrite (processLines_eq (mkLoop (l ++ lf :: r) d rd pg)).
  cbn [buffer decoder reader page]. cbv zeta.
  destruct (Z.eq_dec _ _) as [E|_]; [rewrite (indexOf_LF_first l r Hl) in E; lia|].
  rewrite (indexOf_LF_first l r Hl), slice_line, slice_rest.
  unfold frameOf. cbv zeta. by rewrite Hd.
Qed.

Lemma processLines_skips_other_lines_witness :
  processLines (mkLoop (js "event: ping" ++ CR ++ LF ++ js "data: x" ++ LF)
                       newTextDecoder (mkReader [] None false) page_demo)
  = processLines (mkLoop (js "data: x" ++ LF)
                         newTextDecoder (mkReader [] None false) page_demo).
Proof.
  apply (processLines_skips_other_lines (js "event: ping" ++ CR) (js "data: x" ++ LF));
    [|reflexivity].
  apply (bool_decide_unpack _). vm_compute. exact I.
Defined.

(** The read loop stops reading for two reasons only: the stream is
    exhausted, or the loop has cancelled the reader. *)
Theorem readLoop_stops_when_done s :
  pending (reader (fst (readLoop s))) = []
  \/ cancelled (reader (fst (readLoop s))) = true.
Proof.
  remember (length (pending (reader s))) as n eqn:Hn.
  revert s Hn. induction (lt_wf n) as [n _ IH]. intros s ->.
  rewrite readLoop_eq. unfold reader_read.
  destruct (cancelled (reader s)) eqn:Hc; [by right|].
  destruct (pending (reader s)) as [|c cs] eqn:Hp.
  - left. by destruct (failure (reader s)).
  - destruct (decode (decoder s) c) as [d1 t1].
    eapply IH; [|reflexivity]. rewrite processLines_pending. simpl. lia.
Qed.

(** ** The Enter key *)

(** A key press changes the page only when it is Enter without Shift on a
    page that can send; Shift+Enter and every other key leave the page
    alone and keep their default action. *)
Theorem onKeyDown_changes_page_only_on_enter e net p :
  fst (fst (onKeyDown e net p)) <> p ->
  key e = js "Enter" /\ shiftKey e = false /\ canSend p = true
  /\ onKeyDown e net p = (onSend net p, true).
Proof.
  unfold onKeyDown. intros H.
  destruct (bool_decide (key e = js "Enter")) eqn:Hk; [|done].
  apply bool_decide_eq_true_1 in Hk. destruct (shiftKey e); [done|].
  simpl in *. repeat split; try done.
  destruct (canSend p) eqn:Hp; [done|]. by rewrite onSend_rejected in H.
Qed.

Lemma onKeyDown_changes_page_only_on_enter_witness :
  let e := mkKeyboardEvent (js "Enter") false in
  key e = js "Enter" /\ shiftKey e = false /\ canSend page_idle = true
  /\ onKeyDown e http_500 page_idle = (onSend http_500 page_idle, true).
Proof.
  intros e. apply (onKeyDown_changes_page_only_on_enter e http_500 page_idle).
  intros H. apply (f_equal input) in H. vm_compute in H. discriminate H.
Defined.

(** * Further properties of the relay endpoints *)

(** The call the streaming relay makes. *)
Definition ask_stream_call (base : JSString) (reqBody : JSON) : FetchCall :=
  mkFetchCall (base ++ js "/ask-stream") (js "POST") json_headers reqBody.

(** Whenever the backend responds, the streaming relay answers with
    status 200, the event-stream content type and the very body stream of
    the backend (or no body when the backend sent none), after one POST of
    the request body. *)
Theorem POST_ask_stream_passes_stream env reqBody backend r :
  backend (ask_stream_call (default default_base (NEXT_PUBLIC_API_BASE_URL env)) reqBody)
  = Resolves r ->
  run (POST_ask_stream env (Resolves reqBody)) backend
  = (Resolves (mkHttpResponse 200 [(js "Content-Type", js "text/event-stream")]
                 (match body r with Some s => BodyStream s | None => NoBody end)),
     [ask_stream_call (default default_base (NEXT_PUBLIC_API_BASE_URL env)) reqBody]).
Proof.
  intros H. unfold run, POST_ask_stream, mbind, Handler_bind, await, fetch.
  cbv zeta. fold (ask_stream_call (default default_base (NEXT_PUBLIC_API_BASE_URL env)) reqBody).
  rewrite H. by destruct (body r).
Qed.

Lemma POST_ask_stream_passes_stream_witness :
  run (POST_ask_stream (mkEnv (Some (js "http://rag:9000")) None) (Resolves question))
      backend_201
  = (Resolves (mkHttpResponse 200 [(js "Content-Type", js "text/event-stream")] NoBody),
     [ask_stream_call (js "http://rag:9000") question]).
Proof.
  exact (POST_ask_stream_passes_stream (mkEnv (Some (js "http://rag:9000")) None)
           question backend_201 _ eq_refl).
Defined.

(** A request whose body is not JSON never reaches the backend: the
    streaming relay and the text revision of the non-streaming endpoint
    let the exception of [req.json()] escape, the JSON revision answers
    500 with a [Proxy error] object. *)
Theorem bad_request_makes_no_call env e backend :
  run (POST_ask_stream env (Rejects e)) backend = (Rejects e, [])
  /\ run (POST_ask_text env (Rejects e)) backend = (Rejects e, [])
  /\ run (POST_ask env (Rejects e)) backend
     = (Resolves (mkHttpResponse 500 [(js "content-type", js "application/json")]
                    (BodyJson (JObject ((js "error", JString (js "Proxy error"))
                                        :: match message e with
                                           | Some m => [(js "detail", JString m)]
                                           | None => []
                                           end)))),
        []).
Proof. repeat split; reflexivity. Qed.

(** The JSON revision of the non-streaming endpoint never lets an
    exception escape: whatever the request and the backend do, it answers,
    with status 500 or with the status of the backend response, and it
    calls the backend once at most. *)
Theorem POST_ask_always_answers env req backend :
  exists resp calls,
    run (POST_ask env req) backend = (Resolves resp, calls)
    /\ (length calls <= 1)%nat
    /\ (r_status resp = 500%N
        \/ exists call r, calls = [call] /\ backend call = Resolves r
                          /\ r_status resp = status r).
Proof.
  unfold run, POST_ask, try_catch, mbind, Handler_bind, await, fetch.
  destruct req as [reqBody|e]; cbv zeta; [|do 2 eexists; split; [reflexivity|]; simpl; auto].
  destruct (backend _) as [r|e] eqn:Hb;
    [|do 2 eexists; split; [reflexivity|]; simpl; auto].
  destruct (json_result r) as [data|e];
    [|do 2 eexists; split; [reflexivity|]; simpl; auto].
  unfold NextResponse_json, newResponse.
  change (default 200%N (Some (status r))) with (status r). cbv zeta.
  destruct (negb (in_range 200 599 (status r)));
    [do 2 eexists; split; [reflexivity|]; simpl; auto|].
  destruct (null_body_status (status r) && _);
    [do 2 eexists; split; [reflexivity|]; simpl; auto|].
  do 2 eexists. split; [reflexivity|]. split; [simpl; lia|].
  right. do 2 eexists. split; [reflexivity|]. split; [exact Hb|reflexivity].
Qed.

(** Where the request goes: once the request body is read, each handler
    makes exactly one call, whatever the backend answers.  The address is
    [NEXT_PUBLIC_API_BASE_URL] when set; otherwise the text revision of
    the non-streaming endpoint falls back to [RAG_API_BASE] and then to
    the local default, while the JSON revision and the streaming relay
    ignore [RAG_API_BASE] and use the local default. *)
Theorem handlers_call_backend_once env reqBody backend :
  snd (run (POST_ask_stream env (Resolves reqBody)) backend)
  = [ask_stream_call (default default_base (NEXT_PUBLIC_API_BASE_URL env)) reqBody]
  /\ snd (run (POST_ask env (Resolves reqBody)) backend)
     = [ask_call (default default_base (NEXT_PUBLIC_API_BASE_URL env)) reqBody]
  /\ snd (run (POST_ask_text env (Resolves reqBody)) backend)
     = [ask_call (default (default default_base (RAG_API_BASE env))
                          (NEXT_PUBLIC_API_BASE_URL env)) reqBody].
Proof.
  unfold run, POST_ask_stream, POST_ask, POST_ask_text, try_catch,
    mbind, Handler_bind, await, fetch. cbv zeta.
  fold (ask_stream_call (default default_base (NEXT_PUBLIC_API_BASE_URL env)) reqBody).
  fold (ask_call (default default_base (NEXT_PUBLIC_API_BASE_URL env)) reqBody).
  fold (ask_call (default (default default_base (RAG_API_BASE env))
                          (NEXT_PUBLIC_API_BASE_URL env)) reqBody).
  repeat split.
  - destruct (backend _) as [r|e]; [|done].
    by destruct (newResponse _ _ _).
  - destruct (backend _) as [r|e]; [|by destruct (NextResponse_json _ _)].
    destruct (json_result r) as [data|e]; [|by destruct (NextResponse_json _ _)].
    destruct (NextResponse_json data _); [done|by destruct (NextResponse_json _ _)].
  - destruct (backend _) as [r|e]; [|done].
    destruct (text_result r) as [t|e]; [|done].
    by destruct (newResponse _ _ _).
Qed.

(** When the backend cannot be reached, or its body cannot be read, the
    two revisions of the non-streaming endpoint part ways: the JSON
    revision answers 500 with a [Proxy error] object carrying the message
    of the error, the text revision lets the error escape. *)
Theorem ask_revisions_on_backend_failure env reqBody backend e :
  let base := default default_base (NEXT_PUBLIC_API_BASE_URL env) in
  let base' := default (default default_base (RAG_API_BASE env))
                       (NEXT_PUBLIC_API_BASE_URL env) in
  (backend (ask_call base reqBody) = Rejects e
   \/ exists r, backend (ask_call base reqBody) = Resolves r /\ json_result r = Rejects e) ->
  (backend (ask_call base' reqBody) = Rejects e
   \/ exists r, backend (ask_call base' reqBody) = Resolves r /\ text_result r = Rejects e) ->
  run (POST_ask env (Resolves reqBody)) backend
  = (Resolves (mkHttpResponse 500 [(js "content-type", js "application/json")]
                 (BodyJson (JObject ((js "error", JString (js "Proxy error"))
                                     :: match message e with
                                        | Some m => [(js "detail", JString m)]
                                        | None => []
                                        end)))),
     [ask_call base reqBody])
  /\ run (POST_ask_text env (Resolves reqBody)) backend
     = (Rejects e, [ask_call base' reqBody]).
Proof.
  intros base base' H1 H2. subst base base'.
  unfold run, POST_ask, POST_ask_text, try_catch, mbind, Handler_bind, await, fetch.
  cbv zeta.
  fold (ask_call (default default_base (NEXT_PUBLIC_API_BASE_URL env)) reqBody).
  fold (ask_call (default (default default_base (RAG_API_BASE env))
                          (NEXT_PUBLIC_API_BASE_URL env)) reqBody).
  split.
  - destruct H1 as [-> | (r & -> & ->)]; reflexivity.
  - destruct H2 as [-> | (r & -> & ->)]; reflexivity.
Qed.

Lemma ask_revisions_on_backend_failure_witness :
  run (POST_ask no_env (Resolves question)) backend_down
  = (Resolves (mkHttpResponse 500 [(js "content-type", js "application/json")]
                 (BodyJson (JObject [(js "error", JString (js "Proxy error"));
                                     (js "detail", JString (js "fetch failed"))]))),
     [ask_call default_base question])
  /\ run (POST_ask_text no_env (Resolves question)) backend_down
     = (Rejects (Error (js "fetch failed")), [ask_call default_base question]).
Proof.
  apply (ask_revisions_on_backend_failure no_env question backend_down
           (Error (js "fetch failed"))); left; reflexivity.
Defined.

(** * A stream of ASCII lines *)

Lemma onSend_crlf_ascii_witness :
  onSend (streamed [concat ((fun l => l ++ crlf) <$> [bytes "data: a"; bytes ": note"; bytes "data:"])]
                   None) page_idle
  = onSend (streamed [concat ((fun l => l ++ eol) <$> [bytes "data: a"; bytes ": note"; bytes "data:"])]
                     None) page_idle.
Proof.
  apply (onSend_crlf_ascii page_idle 200 _ _ None
           [bytes "data: a"; bytes ": note"; bytes "data:"]).
  unfold bytes.
  repeat match goal with
         | |- context [list_byte_of_string ?s] =>
             let v := eval vm_compute in (list_byte_of_string s) in
             change (list_byte_of_string s) with v
         end.
  repeat match goal with
         | |- Forall _ [] => apply Forall_nil
         | |- Forall _ (_ :: _) => apply Forall_cons
         | |- _ /\ _ => split
         | |- (_ < _)%N => reflexivity
         | |- _ ∉ _ =>
             rewrite !not_elem_of_cons; repeat split;
             try discriminate; apply not_elem_of_nil
         | |- last _ <> _ => simpl; discriminate
         | |- True => exact I
         end.
Defined.
